(** * Reconciliation of website and Zotero publication records

    A shallow embedding of [main.py]: the reconciler [compare_records], the
    title lookup [get_record_by_title] and the reporter [print_report],
    followed by the properties proved about them.

    Python exceptions are modelled by the [result] type, Python dictionaries
    by stdpp's [gmap], and the in-place mutation of [summary],
    [zotero_titles] and the output file by explicit state passing.

    The fuzzy matcher [thefuzz.process.extract] is an external package: the
    reconciler takes it as a parameter, and what a property needs from it is
    a hypothesis of that property. A small matcher of the same shape runs
    the model on sample records. *)

From Stdlib Require Import ZArith NArith Ascii String List Lia.
From stdpp Require Import base decidable option list strings numbers gmap fin_maps pretty.

Local Open Scope string_scope.
Local Open Scope list_scope.
Local Open Scope Z_scope.

(** ** Exceptions *)

(** The built-in exceptions the modelled code can raise. *)
Inductive exn : Set :=
  | ValueError   (* max() of an empty list, list.remove of an absent item *)
  | KeyError     (* dict subscript with an absent key *)
  | IndexError   (* str[0] on the empty string *)
  | TypeError.   (* subscripting None *)

Inductive result (A : Type) : Type :=
  | Ok (a : A)
  | Raise (e : exn).

Arguments Ok {A} a.
Arguments Raise {A} e.

#[global] Instance result_ret : MRet result := fun A a => Ok a.
#[global] Instance result_bind : MBind result := fun A B f m =>
  match m with
  | Ok a => f a
  | Raise e => Raise e
  end.

#[global] Instance exn_eq_dec : EqDecision exn.
Proof. solve_decision. Defined.

(** [for x in l: body], threading the loop state [s] through the body. *)
Fixpoint for_each {A S : Type} (l : list A) (body : S -> A -> result S) (s : S)
  : result S :=
  match l with
  | [] => Ok s
  | x :: l' => s' ← body s x; for_each l' body s'
  end.

(** ** Data model

    The records are dictionaries with fixed keys; they are modelled as
    records, so a missing key is not represented. A string is the sequence
    of its characters. *)

(** An entry of a Zotero record's ["authors"] list. *)
Record Creator : Set := mkCreator {
  firstName : string;
  lastName : string;
  creatorType : string
}.

(** The part of a [datetime] that [strftime('%Y/%m/%d')] reads. *)
Record datetime : Set := mkDatetime {
  year : N;
  month : N;
  day : N
}.

(** A website record: [{"title": ..., "authors": ...}]. *)
Record WebRecord : Set := mkWebRecord {
  web_title : string;
  web_authors : string
}.

(** A Zotero record: [{"title": ..., "authors": ..., "date": ..., "url": ...}]. *)
Record ZoteroRecord : Set := mkZoteroRecord {
  zot_title : string;
  zot_authors : list Creator;
  zot_date : datetime;
  zot_url : string
}.

Inductive MatchType : Set :=
  | success
  | not_found_on_zotero
  | not_found_on_website.

#[global] Instance MatchType_eq_dec : EqDecision MatchType.
Proof. solve_decision. Defined.

Record Match : Set := mkMatch {
  type : MatchType;
  ratio : Z;
  web_record : option WebRecord;
  zotero_record : option ZoteroRecord
}.

(** ** Python primitives used by the reconciler *)

(** [list.remove(x)]: drops the first item equal to [x]; [ValueError] when
    there is none. *)
Fixpoint list_remove (x : string) (l : list string) : result (list string) :=
  match l with
  | [] => Raise ValueError
  | y :: l' =>
      if decide (y = x) then Ok l'
      else l'' ← list_remove x l'; Ok (y :: l'')
  end.

(** [max(l)] on a list of integers; [ValueError] on the empty list. *)
Definition py_max (l : list Z) : result Z :=
  match l with
  | [] => Raise ValueError
  | x :: l' => Ok (foldl Z.max x l')
  end.

(** [{value: key for key, value in ratios}]: the pairs are inserted in list
    order, so a later pair overwrites an earlier one with the same score. *)
Definition invert_ratios (ratios : list (string * Z)) : gmap Z string :=
  foldl (fun d kv => <[kv.2 := kv.1]> d) ∅ ratios.

(** [list(d.keys())]. *)
Definition dict_keys (d : gmap Z string) : list Z := (map_to_list d).*1.

(** [d[k]]; [KeyError] when [k] is absent. *)
Definition dict_get (d : gmap Z string) (k : Z) : result string :=
  match d !! k with
  | Some v => Ok v
  | None => Raise KeyError
  end.

(** ** Title lookup *)

Fixpoint get_record_by_title (records : list ZoteroRecord) (title : string)
  : option ZoteroRecord :=
  match records with
  | [] => None
  | record :: records' =>
      if decide (zot_title record = title) then Some record
      else get_record_by_title records' title
  end.

(** ** The reconciler *)

Definition default_match_threshold : Z := 90.

Section Reconciler.

(** [thefuzz.process.extract(query, choices)] with its default processor,
    scorer and limit. It belongs to an external package, so the reconciler
    is parametrised by it: it returns (choice, score) pairs. *)
Variable extract : string -> list string -> list (string * Z).

(** The state of the first loop: [summary] and the pool [zotero_titles]. *)
Definition loop_state : Type := list Match * list string.

(** The body of [for web_record in tqdm(website_records)]. *)
Definition compare_body (zotero_records : list ZoteroRecord)
    (match_threshold : Z) (st : loop_state) (web_record : WebRecord)
  : result loop_state :=
  let '(summary, zotero_titles) := st in
  let ratios := extract (web_title web_record) zotero_titles in
  let ratios := invert_ratios ratios in
  max_closeness ← py_max (dict_keys ratios);
  if decide (max_closeness > match_threshold) then
    match_title ← dict_get ratios max_closeness;
    let summary :=
      summary ++ [mkMatch success max_closeness (Some web_record)
                    (get_record_by_title zotero_records match_title)] in
    removed ← dict_get ratios max_closeness;
    zotero_titles ← list_remove removed zotero_titles;
    Ok (summary, zotero_titles)
  else
    Ok (summary ++ [mkMatch not_found_on_zotero max_closeness
                      (Some web_record) None],
        zotero_titles).

(** The body of [for title in zotero_titles]. *)
Definition remainder_body (zotero_records : list ZoteroRecord)
    (summary : list Match) (title : string) : result (list Match) :=
  Ok (summary ++ [mkMatch not_found_on_website 0 None
                    (get_record_by_title zotero_records title)]).

Definition compare_records (website_records : list WebRecord)
    (zotero_records : list ZoteroRecord) (match_threshold : Z)
  : result (list Match) :=
  let summary := [] in
  let zotero_titles := zot_title <$> zotero_records in
  '(summary, zotero_titles) ←
    for_each website_records
      (compare_body zotero_records match_threshold) (summary, zotero_titles);
  summary ← for_each zotero_titles (remainder_body zotero_records) summary;
  Ok summary.

End Reconciler.

(** ** The reporter *)

(** The two control characters of the report. *)
Definition LF : string := String (ascii_of_nat 10) "".
Definition TAB : string := String (ascii_of_nat 9) "".

(** [output_file.write(text)]: the file content so far is the state. *)
Definition write (output_file text : string) : string := output_file +:+ text.

(** [match.web_record[...]] and [match.zotero_record[...]]: subscripting
    [None] raises [TypeError]. *)
Definition subscript {A : Type} (record : option A) : result A :=
  match record with
  | Some r => Ok r
  | None => Raise TypeError
  end.

(** [s[0]]; [IndexError] on the empty string. *)
Definition first_char (s : string) : result string :=
  match s with
  | EmptyString => Raise IndexError
  | String c _ => Ok (String c "")
  end.

(** [s[:-2]]. *)
Definition drop_last_two (s : string) : string :=
  substring 0 (String.length s - 2) s.

(** [MatchType.name]. *)
Definition MatchType_name (t : MatchType) : string :=
  match t with
  | success => "success"
  | not_found_on_zotero => "not_found_on_zotero"
  | not_found_on_website => "not_found_on_website"
  end.

(** Decimal digits of [n], padded with zeros on the left to [width]. *)
Definition zero_pad (width : nat) (n : N) : string :=
  let digits := pretty n in
  String.concat "" (replicate (width - String.length digits) "0") +:+ digits.

(** [d.strftime('%Y/%m/%d')], for a year of at most four digits. *)
Definition strftime_Ymd (d : datetime) : string :=
  zero_pad 4 (year d) +:+ "/" +:+ zero_pad 2 (month d) +:+ "/" +:+
  zero_pad 2 (day d).

(** The body of [for author in match.zotero_record["authors"]]. *)
Definition authors_body (authors : string) (author : Creator) : result string :=
  if decide (creatorType author = "author") then
    initial ← first_char (firstName author);
    Ok (authors +:+ (initial +:+ "." +:+ lastName author +:+ ", "))
  else Ok authors.

(** The authors field of a row of the third table: the inner loop followed
    by [authors = authors[:-2]]. *)
Definition authors_field (creators : list Creator) : result string :=
  authors ← for_each creators authors_body "";
  Ok (drop_last_two authors).

(** The line written for a [success] outcome. *)
Definition success_row (m : Match) : result string :=
  web ← subscript (web_record m);
  zot ← subscript (zotero_record m);
  Ok (web_title web +:+ TAB +:+ zot_title zot +:+ TAB +:+
      MatchType_name (type m) +:+ TAB +:+ pretty (ratio m) +:+ LF).

(** The line written for a [not_found_on_zotero] outcome. *)
Definition zotero_missing_row (m : Match) : result string :=
  web ← subscript (web_record m);
  Ok (web_title web +:+ LF).

(** The line written for a [not_found_on_website] outcome. *)
Definition website_missing_row (m : Match) : result string :=
  zot ← subscript (zotero_record m);
  authors ← authors_field (zot_authors zot);
  Ok (zot_title zot +:+ TAB +:+ authors +:+ TAB +:+ zot_url zot +:+ TAB +:+
      strftime_Ymd (zot_date zot) +:+ LF).

(** [for match in results_summary: if match.type == t: write(row(match))]. *)
Definition write_rows (t : MatchType) (row : Match -> result string)
    (output_file : string) (m : Match) : result string :=
  if decide (type m = t) then
    line ← row m; Ok (write output_file line)
  else Ok output_file.

Definition success_header : string :=
  "Successful matches:" +:+ LF +:+
  "Website title" +:+ TAB +:+ "Zotero title" +:+ TAB +:+ "Success" +:+ TAB +:+
  "Ratio" +:+ LF.

Definition zotero_missing_header : string :=
  "Records on website not found on Zotero:" +:+ LF +:+ "Website title" +:+ LF.

Definition website_missing_header : string :=
  "Records on Zotero not found on Website:" +:+ LF +:+
  "Zotero title" +:+ TAB +:+ "authors" +:+ TAB +:+ "url" +:+ TAB +:+ "date" +:+ LF.

(** The three counting lines at the top of the report. *)
Definition count_lines (results_summary : list Match) : string :=
  let matches := filter (fun m => type m = success) results_summary in
  let zotero_missing :=
    filter (fun m => type m = not_found_on_zotero) results_summary in
  let website_missing :=
    filter (fun m => type m = not_found_on_website) results_summary in
  pretty (length matches) +:+ " records match on website and Zotero." +:+ LF +:+
  pretty (length zotero_missing) +:+
    " records on website not found on Zotero." +:+ LF +:+
  pretty (length website_missing) +:+
    " records on Zotero not found on Website" +:+ LF.

(** [print_report]: the text written to [results.tsv], or the exception that
    interrupts the writing. *)
Definition print_report (results_summary : list Match) : result string :=
  let output_file := "" in
  let output_file := write output_file (count_lines results_summary) in
  let output_file := write output_file success_header in
  output_file ←
    for_each results_summary (write_rows success success_row) output_file;
  let output_file := write output_file zotero_missing_header in
  output_file ←
    for_each results_summary
      (write_rows not_found_on_zotero zotero_missing_row) output_file;
  let output_file := write output_file website_missing_header in
  for_each results_summary
    (write_rows not_found_on_website website_missing_row) output_file.

(** ** The pipeline *)

(** [main], from the two lists the collectors return: the reconciler is
    called with its default threshold and its outcomes are handed to the
    reporter. The Zotero records are those of the data model, whose date
    is a date: a record whose date text could not be parsed is not
    represented. *)
Definition main (extract : string -> list string -> list (string * Z))
    (website_records : list WebRecord) (zotero_records : list ZoteroRecord)
  : result string :=
  match_summary ←
    compare_records extract website_records zotero_records
      default_match_threshold;
  print_report match_summary.

(** ** The Zotero collector *)

(** [record["data"]] of an item of the library, as the keys
    [get_zotero_records] reads; [None] is an absent key. *)
Record ItemData : Set := mkItemData {
  data_title : option string;
  data_creators : option (list Creator);
  data_date : option string;
  data_DOI : option string;
  data_url : option string
}.

(** A record as [get_zotero_records] builds it: the date is what
    [dateparser.parse] returns, [None] when it cannot read the text. *)
Record FetchedRecord : Set := mkFetchedRecord {
  fetched_title : string;
  fetched_authors : list Creator;
  fetched_date : option datetime;
  fetched_url : string
}.

(** [d[key]] on the keys of an item; [KeyError] when the key is absent. *)
Definition item_get {A : Type} (field : option A) : result A :=
  match field with
  | Some v => Ok v
  | None => Raise KeyError
  end.

Section ZoteroCollector.

(** [dateparser.parse], an external package. *)
Variable parse : string -> option datetime.

(** The body of [for record in results]. *)
Definition zotero_body (records : list FetchedRecord) (record : ItemData)
  : result (list FetchedRecord) :=
  url ← match data_DOI record with
        | Some doi => Ok ("https://" +:+ doi)
        | None => item_get (data_url record)
        end;
  title ← item_get (data_title record);
  creators ← item_get (data_creators record);
  date ← item_get (data_date record);
  Ok (records ++ [mkFetchedRecord title creators (parse date) url]).

(** [get_zotero_records], from the items [zot.everything(zot.top())]
    returns. *)
Definition get_zotero_records (results : list ItemData)
  : result (list FetchedRecord) :=
  let records := [] in
  for_each results zotero_body records.

End ZoteroCollector.

(** ** Creators as the library gives them *)

(** A creator of a Zotero item, as the keys the reporter reads: a person
    has the keys firstName and lastName, an institution has a single name
    key instead, which is never read. [None] is an absent key.
    [get_zotero_records] copies the creators as they are. *)
Record LibraryCreator : Set := mkLibraryCreator {
  library_creatorType : option string;
  library_firstName : option string;
  library_lastName : option string
}.

(** A creator that has the three keys. *)
Definition of_creator (c : Creator) : LibraryCreator :=
  mkLibraryCreator (Some (creatorType c)) (Some (firstName c))
    (Some (lastName c)).

(** The body of [for author in match.zotero_record["authors"]], on the
    creators of the library: a subscript with an absent key raises
    [KeyError]. *)
Definition library_authors_body (authors : string) (author : LibraryCreator)
  : result string :=
  ctype ← item_get (library_creatorType author);
  if decide (ctype = "author") then
    first ← item_get (library_firstName author);
    initial ← first_char first;
    last ← item_get (library_lastName author);
    Ok (authors +:+ (initial +:+ "." +:+ last +:+ ", "))
  else Ok authors.

(** The inner loop followed by [authors = authors[:-2]]. *)
Definition library_authors_field (creators : list LibraryCreator)
  : result string :=
  authors ← for_each creators library_authors_body "";
  Ok (drop_last_two authors).

(** ** A reference matcher

    Stands in for [process.extract] when the model is run on concrete
    records. Every choice is scored by [scorer]; the pairs are ordered best
    first, ties in the order of the choices, and the first five are
    returned. *)

Fixpoint insert_by_score (p : string * Z) (l : list (string * Z))
  : list (string * Z) :=
  match l with
  | [] => [p]
  | q :: l' =>
      if decide (q.2 <= p.2) then p :: q :: l' else q :: insert_by_score p l'
  end.

Definition extract_with (scorer : string -> string -> Z) (query : string)
    (choices : list string) : list (string * Z) :=
  take 5 (foldr insert_by_score [] ((fun c => (c, scorer query c)) <$> choices)).

(** 100 for equal titles, 90 when one title begins with the other, 0
    otherwise. *)
Definition prefix_score (query choice : string) : Z :=
  if decide (choice = query) then 100
  else if (String.prefix query choice || String.prefix choice query)%bool then 90
  else 0.

Definition reference_extract : string -> list string -> list (string * Z) :=
  extract_with prefix_score.

(** ** Observing the pool from the outcomes

    The reconciler does not return its pool. These definitions rebuild it
    from the outcome list, so that properties of the pool can be stated on
    what [compare_records] returns. *)

(** The catalog title an outcome has claimed, for a [success] outcome. *)
Definition claimed_title (m : Match) : option string :=
  if decide (type m = success) then zot_title <$> zotero_record m else None.

Definition matched_titles (summary : list Match) : list string :=
  omap claimed_title summary.

(** [l] without the first item equal to [x], if any. *)
Fixpoint remove_first (x : string) (l : list string) : list string :=
  match l with
  | [] => []
  | y :: l' => if decide (y = x) then l' else y :: remove_first x l'
  end.

(** The titles left once every title of [matched] has been taken out, one
    occurrence for each. *)
Definition pool_remainder (titles matched : list string) : list string :=
  foldl (fun pool t => remove_first t pool) titles matched.

(** The pool standing when the website record of index [i] is processed. *)
Definition pool_before (zotero_records : list ZoteroRecord)
    (summary : list Match) (i : nat) : list string :=
  pool_remainder (zot_title <$> zotero_records)
    (matched_titles (take i summary)).

(** [s] is the greatest score among the pairs [ratios]. *)
Definition best_score (ratios : list (string * Z)) (s : Z) : Prop :=
  s ∈ ratios.*2 ∧ ∀ s', s' ∈ ratios.*2 → s' <= s.

(** [record] is the earliest of [records] whose title is [title]. *)
Definition earliest_with_title (records : list ZoteroRecord) (title : string)
    (record : ZoteroRecord) : Prop :=
  ∃ before after,
    records = before ++ record :: after ∧
    zot_title record = title ∧
    Forall (fun r => zot_title r ≠ title) before.

(** The outcome appended for a title left in the pool. *)
Definition catalog_only (zotero_records : list ZoteroRecord) (title : string)
  : Match :=
  mkMatch not_found_on_website 0 None (get_record_by_title zotero_records title).

(** The titles of the Zotero records attached to the outcomes. *)
Definition attached_titles (summary : list Match) : list string :=
  omap (fun m => zot_title <$> zotero_record m) summary.

(** An author whose first name has a first character. *)
Definition has_initial (c : Creator) : Prop :=
  creatorType c = "author" → firstName c ≠ "".

#[global] Instance has_initial_dec (c : Creator) : Decision (has_initial c).
Proof. unfold has_initial. apply _. Defined.


(** A creator the inner loop gets past: it has a type and, if the type is
    "author", a non-empty first name and a last name. *)
Definition writable (c : LibraryCreator) : Prop :=
  ∃ ctype, library_creatorType c = Some ctype ∧
    (ctype = "author" →
     (∃ first, library_firstName c = Some first ∧ first ≠ "") ∧
     is_Some (library_lastName c)).

(** The entry of a creator of type "author". *)
Definition library_entry (c : LibraryCreator) : option string :=
  match library_creatorType c, library_firstName c, library_lastName c with
  | Some ctype, Some first, Some last =>
      if decide (ctype = "author")
      then Some (substring 0 1 first +:+ "." +:+ last) else None
  | _, _, _ => None
  end.

(** The items [get_zotero_records] can convert. *)
Definition convertible (record : ItemData) : Prop :=
  is_Some (data_title record) ∧ is_Some (data_creators record) ∧
  is_Some (data_date record) ∧
  (is_Some (data_DOI record) ∨ is_Some (data_url record)).

(** What [get_zotero_records] makes of one item. *)
Definition converted (parse : string -> option datetime) (record : ItemData)
    (fetched : FetchedRecord) : Prop :=
  data_title record = Some (fetched_title fetched) ∧
  data_creators record = Some (fetched_authors fetched) ∧
  (∃ date, data_date record = Some date ∧ fetched_date fetched = parse date) ∧
  match data_DOI record with
  | Some doi => fetched_url fetched = "https://" +:+ doi
  | None => data_url record = Some (fetched_url fetched)
  end.

(** ** The first loop as a step relation *)

Section StepRelation.

Variable extract : string -> list string -> list (string * Z).
Variable zotero_records : list ZoteroRecord.
Variable match_threshold : Z.

(** One pass of the loop body: from the pool [pool], the website record
    [w] produces the outcome [m] and leaves the pool [pool']. *)
Inductive step (pool : list string) (w : WebRecord)
  : Match -> list string -> Prop :=
  | step_success s t pool' :
      best_score (extract (web_title w) pool) s →
      s > match_threshold →
      invert_ratios (extract (web_title w) pool) !! s = Some t →
      list_remove t pool = Ok pool' →
      step pool w
        (mkMatch success s (Some w) (get_record_by_title zotero_records t))
        pool'
  | step_missing s :
      best_score (extract (web_title w) pool) s →
      ¬ s > match_threshold →
      step pool w (mkMatch not_found_on_zotero s (Some w) None) pool.

(** The whole loop: the outcomes of [ws] in order, and the final pool. *)
Inductive run : list string -> list WebRecord -> list Match -> list string
                -> Prop :=
  | run_nil pool : run pool [] [] pool
  | run_cons pool w ws m pool' front pool'' :
      step pool w m pool' →
      run pool' ws front pool'' →
      run pool (w :: ws) (m :: front) pool''.

End StepRelation.

(** ** The report, section by section

    [print_report] writes line after line. These definitions name what the
    properties of the report are stated with. *)

(** The lines [row] produces for the outcomes [l], in order, or the first
    exception. *)
Fixpoint rows_of (row : Match -> result string) (l : list Match)
  : result (list string) :=
  match l with
  | [] => Ok []
  | m :: l' => line ← row m; lines ← rows_of row l'; Ok (line :: lines)
  end.

(** The lines one after the other. *)
Definition concat_rows (rows : list string) : string :=
  foldr String.append "" rows.

(** First initial, period, last name. *)
Definition author_entry (c : Creator) : string :=
  substring 0 1 (firstName c) +:+ "." +:+ lastName c.

(** The authors field as the specification words it: the entries of the
    creators whose role is "author", joined by a comma and a space. *)
Definition authors_spec (creators : list Creator) : string :=
  String.concat ", "
    (author_entry <$> filter (fun c => creatorType c = "author") creators).

(** ** Sample records *)

Definition web (title : string) : WebRecord := mkWebRecord title "".

Definition jane_doe : Creator := mkCreator "Jane" "Doe" "author".
Definition a_smith : Creator := mkCreator "A" "Smith" "editor".
Definition b_jones : Creator := mkCreator "B" "Jones" "author".

Definition zot (title url : string) (creators : list Creator) : ZoteroRecord :=
  mkZoteroRecord title creators (mkDatetime 2020 1 15) url.

Definition sample_website : list WebRecord :=
  [web "Deep Learning for X"; web "Grain growth"; web "Texture"].

Definition sample_catalog : list ZoteroRecord :=
  [zot "Texture evolution" "http://t" [a_smith; b_jones];
   zot "Deep Learning for X" "http://x" [jane_doe];
   zot "Slip systems" "http://s" [b_jones; jane_doe]].

(** Two catalog records with the same title. *)
Definition duplicate_catalog : list ZoteroRecord :=
  [zot "Slip systems" "http://first" [jane_doe];
   zot "Grain growth" "http://g" [];
   zot "Slip systems" "http://second" [b_jones]].

(** What the reconciler returns on the samples, with the reference matcher
    and the default threshold. *)
Definition sample_summary : list Match :=
  Eval vm_compute in
    match compare_records reference_extract sample_website sample_catalog
            default_match_threshold with
    | Ok summary => summary
    | Raise _ => []
    end.

Definition duplicate_summary : list Match :=
  Eval vm_compute in
    match compare_records reference_extract
            [web "Slip systems"; web "Texture"] duplicate_catalog
            default_match_threshold with
    | Ok summary => summary
    | Raise _ => []
    end.

(** The report written for [sample_summary]. *)
Definition sample_report : string :=
  Eval vm_compute in
    match print_report sample_summary with
    | Ok text => text
    | Raise _ => ""
    end.

(** Items of a library: with a DOI and a url, with an empty DOI, with a
    url only, and with neither. *)
Definition sample_parse (text : string) : option datetime :=
  if decide (text = "2020-01-15") then Some (mkDatetime 2020 1 15) else None.

Definition item_doi_and_url : ItemData :=
  mkItemData (Some "Texture evolution") (Some [a_smith; b_jones])
    (Some "2020-01-15") (Some "doi.org/10.1/t") (Some "http://t").

Definition item_empty_doi : ItemData :=
  mkItemData (Some "Slip systems") (Some [jane_doe]) (Some "in press")
    (Some "") (Some "http://s").

Definition item_url_only : ItemData :=
  mkItemData (Some "Grain growth") (Some []) (Some "2020-01-15")
    None (Some "http://g").

Definition item_no_link : ItemData :=
  mkItemData (Some "Thesis") (Some [jane_doe]) (Some "2020-01-15") None None.

Definition sample_items : list ItemData :=
  [item_doi_and_url; item_empty_doi; item_url_only].

Definition sample_fetched : list FetchedRecord :=
  Eval vm_compute in
    match get_zotero_records sample_parse sample_items with
    | Ok records => records
    | Raise _ => []
    end.

(** Two titles that score the same against "Texture". *)
Definition texture_catalog : list ZoteroRecord :=
  [zot "Texture evolution" "http://t" [a_smith; b_jones];
   zot "Texture analysis" "http://a" [jane_doe]].

(** A record whose author has no first name. *)
Definition consortium_catalog : list ZoteroRecord :=
  [zot "Annual report" "http://r" [mkCreator "" "Consortium" "author"]].

(** A website list that asks twice for the same title. *)
Definition repeated_website : list WebRecord :=
  [web "Slip systems"; web "Slip systems"; web "Deep Learning for X"].

Definition repeated_summary : list Match :=
  Eval vm_compute in
    match compare_records reference_extract repeated_website sample_catalog
            default_match_threshold with
    | Ok summary => summary
    | Raise _ => []
    end.

(** Creators of the library: a person, an institution as editor, and an
    institution as author. *)
Definition person_author : LibraryCreator :=
  mkLibraryCreator (Some "author") (Some "Bea") (Some "Jones").

Definition institution_editor : LibraryCreator :=
  mkLibraryCreator (Some "editor") None None.

Definition institution_author : LibraryCreator :=
  mkLibraryCreator (Some "author") None None.

Definition nameless_author : LibraryCreator :=
  mkLibraryCreator (Some "author") (Some "") (Some "Consortium").

(** ** Facts about the primitives *)

Lemma bind_Ok_inv {A B : Type} (m : result A) (f : A -> result B) (b : B) :
  (m ≫= f) = Ok b → ∃ a, m = Ok a ∧ f a = Ok b.
Proof. destruct m as [a|e]; simpl; [eauto | discriminate]. Qed.

Lemma for_each_app {A S : Type} (l1 l2 : list A) (body : S -> A -> result S)
    (s : S) :
  for_each (l1 ++ l2) body s = (for_each l1 body s ≫= for_each l2 body).
Proof.
  revert s. induction l1 as [|x l1 IH]; intros s; simpl; [done|].
  destruct (body s x) as [s'|e]; simpl; [apply IH | done].
Qed.

Lemma list_remove_split x l l' :
  list_remove x l = Ok l' →
  ∃ l1 l2, l = l1 ++ x :: l2 ∧ l' = l1 ++ l2 ∧ x ∉ l1.
Proof.
  revert l'. induction l as [|y l IH]; intros l'; simpl; [discriminate|].
  case_decide as Hy.
  - intros [= <-]. subst y. exists [], l. split_and!; [done..|apply not_elem_of_nil].
  - intros H. apply bind_Ok_inv in H as (l'' & Hrec & [= <-]).
    destruct (IH _ Hrec) as (l1 & l2 & -> & -> & Hnot).
    exists (y :: l1), l2. split_and!; [done..|].
    rewrite elem_of_cons. intros [->|?]; done.
Qed.

Lemma list_remove_remove_first x l l' :
  list_remove x l = Ok l' → l' = remove_first x l.
Proof.
  revert l'. induction l as [|y l IH]; intros l'; simpl; [discriminate|].
  case_decide as Hy; [by intros [= <-]|].
  intros H. apply bind_Ok_inv in H as (l'' & Hrec & [= <-]).
  by rewrite (IH _ Hrec).
Qed.

Lemma list_remove_elem_of x l : x ∈ l → ∃ l', list_remove x l = Ok l'.
Proof.
  induction l as [|y l IH]; [by intros ?%elem_of_nil|].
  intros Hin. simpl. case_decide as Hy; [eauto|].
  apply elem_of_cons in Hin as [->|Hin]; [done|].
  destruct (IH Hin) as [l' ->]. simpl. eauto.
Qed.

Lemma list_remove_Ok_elem_of x l l' : list_remove x l = Ok l' → x ∈ l.
Proof.
  intros (l1 & l2 & -> & _ & _)%list_remove_split.
  rewrite elem_of_app, elem_of_cons. auto.
Qed.

Lemma list_remove_length x l l' :
  list_remove x l = Ok l' → length l = S (length l').
Proof.
  intros (l1 & l2 & -> & -> & _)%list_remove_split.
  rewrite !length_app. simpl. lia.
Qed.

Lemma remove_first_sublist x l : remove_first x l `sublist_of` l.
Proof.
  induction l as [|y l IH]; simpl; [constructor|].
  case_decide; [by apply sublist_cons_r; left | by constructor].
Qed.

Lemma remove_first_NoDup x l : NoDup l → x ∉ remove_first x l.
Proof.
  induction 1 as [|y l Hy Hl IH]; simpl; [apply not_elem_of_nil|].
  case_decide as Heq; [by subst|].
  rewrite elem_of_cons. intros [->|?]; done.
Qed.

Lemma pool_remainder_sublist titles matched :
  pool_remainder titles matched `sublist_of` titles.
Proof.
  unfold pool_remainder. revert titles.
  induction matched as [|t matched IH]; intros titles; simpl; [done|].
  etrans; [apply IH | apply remove_first_sublist].
Qed.

Lemma pool_remainder_app titles m1 m2 :
  pool_remainder titles (m1 ++ m2) = pool_remainder (pool_remainder titles m1) m2.
Proof. unfold pool_remainder. apply foldl_app. Qed.

Lemma get_record_by_title_earliest records title record :
  get_record_by_title records title = Some record ↔
  earliest_with_title records title record.
Proof.
  unfold earliest_with_title. induction records as [|r records IH]; simpl.
  - split; [discriminate|]. intros ([|??] & ? & ? & _); discriminate.
  - case_decide as Hr.
    + split.
      * intros [= <-]. exists [], records. by split_and!.
      * intros ([|r' before] & after & Heq & Ht & Hall); simplify_eq/=; [done|].
        by apply Forall_cons in Hall as [? _].
    + rewrite IH. split.
      * intros (before & after & -> & Ht & Hall).
        exists (r :: before), after. split_and!; [done..|by constructor].
      * intros ([|r' before] & after & Heq & Ht & Hall); simplify_eq/=.
        apply Forall_cons in Hall as [_ Hall]. eauto.
Qed.

Lemma get_record_by_title_elem_of records title :
  title ∈ zot_title <$> records →
  ∃ record, get_record_by_title records title = Some record.
Proof.
  induction records as [|r records IH]; simpl; [by intros ?%elem_of_nil|].
  intros Hin. case_decide as Hr; [eauto|].
  apply elem_of_cons in Hin as [->|Hin]; [done | auto].
Qed.

Lemma get_record_by_title_title records title record :
  get_record_by_title records title = Some record → zot_title record = title.
Proof. rewrite get_record_by_title_earliest. by intros (? & ? & _ & ? & _). Qed.

Lemma foldl_max_spec (a : Z) (l : list Z) :
  foldl Z.max a l ∈ a :: l ∧ ∀ y, y ∈ a :: l → y <= foldl Z.max a l.
Proof.
  revert a. induction l as [|x l IH]; intros a; simpl.
  - split; [by left|]. intros y ?%list_elem_of_singleton. lia.
  - destruct (IH (Z.max a x)) as [Hin Hle]. split.
    + apply elem_of_cons in Hin as [Heq|Hin]; [|by do 2 right].
      rewrite Heq. destruct (Z.max_spec a x) as [[_ ->]|[_ ->]];
        [right; left | left]; done.
    + intros y Hy. rewrite !elem_of_cons in Hy.
      destruct Hy as [->|[->|Hy]].
      * etrans; [apply (Z.le_max_l _ x)|]. apply Hle. by left.
      * etrans; [apply (Z.le_max_r a)|]. apply Hle. by left.
      * apply Hle. by right.
Qed.

Lemma py_max_spec (l : list Z) (m : Z) :
  py_max l = Ok m → m ∈ l ∧ ∀ y, y ∈ l → y <= m.
Proof.
  destruct l as [|x l]; simpl; [discriminate|].
  intros [= <-]. apply foldl_max_spec.
Qed.

Lemma py_max_nil_iff (l : list Z) : py_max l = Raise ValueError ↔ l = [].
Proof. destruct l; simpl; split; done. Qed.

Lemma py_max_nonempty (l : list Z) : l ≠ [] → ∃ m, py_max l = Ok m.
Proof. destruct l; simpl; [done | eauto]. Qed.

Lemma invert_ratios_foldl_lookup (ratios : list (string * Z))
    (d : gmap Z string) (s : Z) (t : string) :
  foldl (fun d kv => <[kv.2 := kv.1]> d) d ratios !! s = Some t →
  d !! s = Some t ∨ (t, s) ∈ ratios.
Proof.
  revert d. induction ratios as [|[t' s'] ratios IH]; intros d; simpl; [auto|].
  intros [Hd|Hin]%IH; [|by right; right].
  rewrite lookup_insert in Hd. case_decide; simplify_eq/=; [right; left | left]; done.
Qed.

Lemma invert_ratios_lookup (ratios : list (string * Z)) (s : Z) (t : string) :
  invert_ratios ratios !! s = Some t → (t, s) ∈ ratios.
Proof.
  intros [Hd|?]%invert_ratios_foldl_lookup; [|done].
  by rewrite lookup_empty in Hd.
Qed.

Lemma invert_ratios_foldl_is_Some (ratios : list (string * Z))
    (d : gmap Z string) (s : Z) :
  is_Some (foldl (fun d kv => <[kv.2 := kv.1]> d) d ratios !! s) ↔
  is_Some (d !! s) ∨ s ∈ ratios.*2.
Proof.
  revert d. induction ratios as [|[t' s'] ratios IH]; intros d; simpl.
  - rewrite elem_of_nil. tauto.
  - rewrite IH, elem_of_cons, lookup_insert_is_Some. simpl.
    destruct (decide (s' = s)) as [->|Hne]; [tauto|].
    intuition congruence.
Qed.

Lemma dict_keys_is_Some (d : gmap Z string) (s : Z) :
  s ∈ dict_keys d ↔ is_Some (d !! s).
Proof.
  unfold dict_keys. rewrite list_elem_of_fmap. split.
  - intros ([k v] & -> & Hkv%elem_of_map_to_list). by exists v.
  - intros [v Hv]. exists (s, v). split; [done|]. by apply elem_of_map_to_list.
Qed.

Lemma dict_keys_invert_ratios (ratios : list (string * Z)) (s : Z) :
  s ∈ dict_keys (invert_ratios ratios) ↔ s ∈ ratios.*2.
Proof.
  rewrite dict_keys_is_Some. unfold invert_ratios.
  rewrite invert_ratios_foldl_is_Some, lookup_empty.
  split; [intros [[]%is_Some_None|?] | right]; done.
Qed.

(** Among the pairs with the same score, the dictionary keeps the title of
    the last one. *)
Lemma invert_ratios_last_wins (l1 l2 : list (string * Z)) (t : string) (s : Z) :
  s ∉ l2.*2 → invert_ratios (l1 ++ (t, s) :: l2) !! s = Some t.
Proof.
  unfold invert_ratios. rewrite foldl_app. simpl.
  generalize (foldl (fun d kv => <[kv.2 := kv.1]> d) (∅ : gmap Z string) l1).
  intros d Hnot.
  assert (Hd : <[s:=t]> d !! s = Some t) by apply lookup_insert_eq.
  revert Hd. generalize (<[s:=t]> d). clear d.
  induction l2 as [|[t' s'] l2 IH]; intros d Hd; simpl; [done|].
  rewrite fmap_cons, not_elem_of_cons in Hnot. destruct Hnot as [Hne Hnot].
  apply IH; [done|]. rewrite lookup_insert_ne; done.
Qed.

Lemma dict_keys_empty : dict_keys (invert_ratios []) = [].
Proof. unfold dict_keys, invert_ratios. simpl. by rewrite map_to_list_empty. Qed.

Lemma matched_titles_cons (m : Match) (summary : list Match) :
  matched_titles (m :: summary) = matched_titles [m] ++ matched_titles summary.
Proof. unfold matched_titles. simpl. by destruct (claimed_title m). Qed.

Lemma matched_titles_success (m : Match) (r : ZoteroRecord) :
  type m = success → zotero_record m = Some r →
  matched_titles [m] = [zot_title r].
Proof.
  intros Hs Hr. unfold matched_titles, claimed_title. simpl.
  by rewrite decide_True, Hr.
Qed.

Lemma matched_titles_app (l1 l2 : list Match) :
  matched_titles (l1 ++ l2) = matched_titles l1 ++ matched_titles l2.
Proof. apply omap_app. Qed.

(** ** The first loop, step by step *)

Section Steps.

Variable extract : string -> list string -> list (string * Z).
Variable zotero_records : list ZoteroRecord.
Variable match_threshold : Z.

Local Abbreviation step := (step extract zotero_records match_threshold).
Local Abbreviation run := (run extract zotero_records match_threshold).

Lemma py_max_best_score (ratios : list (string * Z)) (s : Z) :
  py_max (dict_keys (invert_ratios ratios)) = Ok s → best_score ratios s.
Proof.
  intros [Hin Hle]%py_max_spec. split.
  - by apply dict_keys_invert_ratios.
  - intros s' Hs'. apply Hle. by apply dict_keys_invert_ratios.
Qed.

Lemma best_score_py_max (ratios : list (string * Z)) (s : Z) :
  best_score ratios s → py_max (dict_keys (invert_ratios ratios)) = Ok s.
Proof.
  intros [Hin Hle].
  destruct (py_max (dict_keys (invert_ratios ratios))) as [s'|e] eqn:Hmax.
  - apply py_max_best_score in Hmax as [Hin' Hle'].
    f_equal. apply Z.le_antisymm; auto.
  - apply dict_keys_invert_ratios in Hin.
    destruct (dict_keys (invert_ratios ratios)); [by apply elem_of_nil in Hin|].
    discriminate.
Qed.

Lemma compare_body_step summary pool w summary' pool' :
  compare_body extract zotero_records match_threshold (summary, pool) w
    = Ok (summary', pool') ↔
  ∃ m, summary' = summary ++ [m] ∧ step pool w m pool'.
Proof.
  unfold compare_body. split.
  - intros (s & Hmax & Hrest)%bind_Ok_inv.
    apply py_max_best_score in Hmax.
    case_decide as Hgt.
    + apply bind_Ok_inv in Hrest as (t & Ht & Hrest).
      apply bind_Ok_inv in Hrest as (t' & Ht' & Hrest).
      apply bind_Ok_inv in Hrest as (pool1 & Hrm & [= <- <-]).
      unfold dict_get in Ht, Ht'.
      destruct (invert_ratios _ !! s) as [t0|] eqn:Hlook; [|discriminate].
      simplify_eq. eexists. split; [done|]. by econstructor.
    + injection Hrest as <- <-. eexists. split; [done|]. by constructor.
  - intros (m & -> & Hstep). destruct Hstep as [s t pool' Hbest Hgt Hlook Hrm|s Hbest Hle].
    + rewrite (best_score_py_max _ _ Hbest). simpl.
      rewrite decide_True by done. unfold dict_get. rewrite Hlook. simpl.
      by rewrite Hrm.
    + rewrite (best_score_py_max _ _ Hbest). simpl.
      by rewrite decide_False by done.
Qed.

Lemma for_each_run ws summary pool summary' pool' :
  for_each ws (compare_body extract zotero_records match_threshold)
    (summary, pool) = Ok (summary', pool') ↔
  ∃ front, summary' = summary ++ front ∧ run pool ws front pool'.
Proof.
  revert summary pool.
  induction ws as [|w ws IH]; intros summary pool; cbn [for_each].
  - split.
    + intros [= <- <-]. exists []. split; [by rewrite app_nil_r | constructor].
    + intros (front & -> & Hrun). inversion Hrun; subst. by rewrite app_nil_r.
  - split.
    + intros ([summary1 pool1] & Hbody & Hrest)%bind_Ok_inv.
      apply compare_body_step in Hbody as (m & -> & Hstep).
      apply IH in Hrest as (front & -> & Hrun).
      exists (m :: front). split; [by rewrite <- app_assoc | by econstructor].
    + intros (front & -> & Hrun). inversion Hrun as [|? ? ? m pool1 front1 ? Hstep Hrun1]; subst.
      assert (Hbody : compare_body extract zotero_records match_threshold
                        (summary, pool) w = Ok (summary ++ [m], pool1))
        by (apply compare_body_step; eauto).
      rewrite Hbody. simpl. apply IH. exists front1.
      split; [by rewrite <- app_assoc | done].
Qed.

Lemma for_each_remainder pool summary :
  for_each pool (remainder_body zotero_records) summary
    = Ok (summary ++ (catalog_only zotero_records <$> pool)).
Proof.
  revert summary. induction pool as [|t pool IH]; intros summary; simpl.
  - by rewrite app_nil_r.
  - rewrite IH. by rewrite <- app_assoc.
Qed.

Lemma compare_records_run ws summary :
  compare_records extract ws zotero_records match_threshold = Ok summary ↔
  ∃ front pool,
    run (zot_title <$> zotero_records) ws front pool ∧
    summary = front ++ (catalog_only zotero_records <$> pool).
Proof.
  unfold compare_records. split.
  - intros ([summary1 pool] & Hloop & Hrest)%bind_Ok_inv.
    apply for_each_run in Hloop as (front & -> & Hrun).
    rewrite for_each_remainder in Hrest. simpl in Hrest.
    injection Hrest as <-. eauto.
  - intros (front & pool & Hrun & ->).
    assert (Hloop : for_each ws
              (compare_body extract zotero_records match_threshold)
              ([], zot_title <$> zotero_records) = Ok (front, pool))
      by (apply for_each_run; eauto).
    rewrite Hloop. simpl. by rewrite for_each_remainder.
Qed.

End Steps.

(** ** Invariants of the loop *)

Section Invariants.

Variable extract : string -> list string -> list (string * Z).
Variable zotero_records : list ZoteroRecord.
Variable match_threshold : Z.

Local Abbreviation step := (step extract zotero_records match_threshold).
Local Abbreviation run := (run extract zotero_records match_threshold).
Local Abbreviation titles := (zot_title <$> zotero_records).

Lemma step_type pool w m pool' :
  step pool w m pool' →
  web_record m = Some w ∧
  best_score (extract (web_title w) pool) (ratio m) ∧
  ((type m = success ∧ ratio m > match_threshold) ∨
   (type m = not_found_on_zotero ∧ ratio m <= match_threshold ∧
    zotero_record m = None ∧ pool' = pool)).
Proof.
  destruct 1; simpl; split_and!; try done; [left | right]; split_and!;
    try done; lia.
Qed.

Lemma step_success_inv pool w m pool' :
  pool `sublist_of` titles →
  step pool w m pool' →
  type m = success →
  ∃ t r,
    (t, ratio m) ∈ extract (web_title w) pool ∧
    t ∈ pool ∧
    zotero_record m = Some r ∧
    get_record_by_title zotero_records t = Some r ∧
    claimed_title m = Some t ∧
    pool' = remove_first t pool.
Proof.
  intros Hsub Hstep Htype.
  destruct Hstep as [s t pool' Hbest Hgt Hlook Hrm|]; [|done].
  pose proof (list_remove_Ok_elem_of _ _ _ Hrm) as Hin.
  destruct (get_record_by_title_elem_of zotero_records t) as [r Hr];
    [by eapply elem_of_sublist|].
  exists t, r. simpl. split_and!; try done.
  - by apply invert_ratios_lookup.
  - unfold claimed_title. simpl. rewrite Hr. simpl.
    by rewrite (get_record_by_title_title _ _ _ Hr).
  - by apply list_remove_remove_first.
Qed.

Lemma step_pool pool w m pool' :
  pool `sublist_of` titles →
  step pool w m pool' →
  pool' = pool_remainder pool (matched_titles [m]) ∧
  pool' `sublist_of` pool.
Proof.
  intros Hsub Hstep. destruct (decide (type m = success)) as [Hs|Hs].
  - destruct (step_success_inv _ _ _ _ Hsub Hstep Hs)
      as (t & r & _ & _ & _ & _ & Hcl & ->).
    unfold matched_titles. simpl. rewrite Hcl. simpl.
    split; [done | apply remove_first_sublist].
  - destruct Hstep; [done|]. by split.
Qed.

Lemma run_length pool ws front pool' :
  run pool ws front pool' → length front = length ws.
Proof. induction 1; simpl; congruence. Qed.

Lemma run_sublist pool ws front pool' :
  pool `sublist_of` titles → run pool ws front pool' →
  pool' `sublist_of` titles.
Proof.
  intros Hsub Hrun. induction Hrun as [|pool w ws m pool' front pool'' Hstep _ IH];
    [done|].
  apply IH. etrans; [|exact Hsub]. by eapply step_pool.
Qed.

Lemma run_pool pool ws front pool' :
  pool `sublist_of` titles → run pool ws front pool' →
  pool' = pool_remainder pool (matched_titles front).
Proof.
  intros Hsub Hrun. induction Hrun as [|pool w ws m pool' front pool'' Hstep _ IH];
    [done|].
  destruct (step_pool _ _ _ _ Hsub Hstep) as [Hpool Hsub'].
  rewrite matched_titles_cons, pool_remainder_app, <- Hpool.
  apply IH. by etrans.
Qed.

(** The pass over the record of index [i] starts from the pool rebuilt
    from the first [i] outcomes. *)
Lemma run_lookup pool ws front pool' i w :
  pool `sublist_of` titles → run pool ws front pool' →
  ws !! i = Some w →
  ∃ m, front !! i = Some m ∧
    step (pool_remainder pool (matched_titles (take i front))) w m
         (pool_remainder pool (matched_titles (take (S i) front))).
Proof.
  intros Hsub Hrun. revert i w.
  induction Hrun as [|pool w0 ws m pool' front pool'' Hstep _ IH]; intros i w Hi;
    [done|].
  destruct (step_pool _ _ _ _ Hsub Hstep) as [Hpool Hsub'].
  destruct i as [|i]; simpl in Hi.
  - injection Hi as ->. exists m. split; [done|].
    change (step pool w m (pool_remainder pool (matched_titles [m]))).
    by rewrite <- Hpool.
  - destruct (IH ltac:(by etrans) i w Hi) as (m' & Hm' & Hstep').
    exists m'. split; [done|].
    rewrite !firstn_cons.
    rewrite (matched_titles_cons m (take i front)).
    rewrite (matched_titles_cons m (take (S i) front)).
    by rewrite !pool_remainder_app, <- Hpool.
Qed.

Lemma run_counts pool ws front pool' :
  run pool ws front pool' →
  (length (filter (fun m => type m = success) front)
   + length (filter (fun m => type m = not_found_on_zotero) front)
   = length ws)%nat ∧
  (length (filter (fun m => type m = success) front) + length pool'
   = length pool)%nat ∧
  filter (fun m => type m = not_found_on_website) front = [].
Proof.
  induction 1 as [|pool w ws m pool' front pool'' Hstep _ (IH1 & IH2 & IH3)];
    [by split_and!|].
  destruct Hstep as [s t pool' Hbest Hgt Hlook Hrm|s Hbest Hle].
  - apply list_remove_length in Hrm.
    rewrite !filter_cons. simpl. split_and!; [lia | lia | done].
  - rewrite !filter_cons. simpl. split_and!; [lia | lia | done].
Qed.

Lemma filter_catalog_only (t : MatchType) (pool : list string) :
  filter (fun m => type m = t) (catalog_only zotero_records <$> pool)
  = if decide (t = not_found_on_website)
    then catalog_only zotero_records <$> pool else [].
Proof.
  induction pool as [|x pool IH]; [by case_decide|].
  rewrite fmap_cons, filter_cons, IH. simpl.
  destruct t; done.
Qed.

Lemma matched_titles_catalog_only (pool : list string) :
  matched_titles (catalog_only zotero_records <$> pool) = [].
Proof. induction pool as [|x pool IH]; [done|]. simpl. exact IH. Qed.

Lemma run_matched_NoDup pool ws front pool' :
  pool `sublist_of` titles → NoDup pool → run pool ws front pool' →
  NoDup (matched_titles front) ∧ ∀ t, t ∈ matched_titles front → t ∈ pool.
Proof.
  intros Hsub Hnd Hrun.
  induction Hrun as [|pool w ws m pool' front pool'' Hstep _ IH].
  - split; [constructor | by intros t ?%elem_of_nil].
  - destruct (step_pool _ _ _ _ Hsub Hstep) as [Hpool Hsub'].
    destruct IH as [IHnd IHin];
      [by etrans | by eapply sublist_NoDup|].
    rewrite matched_titles_cons.
    destruct (decide (type m = success)) as [Hs|Hs].
    + destruct (step_success_inv _ _ _ _ Hsub Hstep Hs)
        as (t & r & _ & Hin & _ & _ & Hcl & Hrm).
      unfold matched_titles at 1 3. simpl. rewrite Hcl. simpl. split.
      * constructor; [|done]. intros Ht%IHin.
        rewrite Hrm in Ht. exact (remove_first_NoDup t pool Hnd Ht).
      * intros t' [->|Ht']%elem_of_cons; [done|].
        apply (elem_of_sublist pool'); auto.
    + unfold matched_titles at 1 3, claimed_title. simpl.
      rewrite decide_False by done. simpl. split; [done|].
      intros t' Ht'. apply (elem_of_sublist pool'); auto.
Qed.

End Invariants.

(** ** Properties of the reconciler *)

Section ReconcilerProperties.

Variable extract : string -> list string -> list (string * Z).
Variable website_records : list WebRecord.
Variable zotero_records : list ZoteroRecord.
Variable match_threshold : Z.
Variable summary : list Match.

Hypothesis returns :
  compare_records extract website_records zotero_records match_threshold
    = Ok summary.

Local Abbreviation titles := (zot_title <$> zotero_records).

(** The returned list splits into the outcomes of the first loop and those
    of the second, and the pool rebuilt from a prefix of the list is the
    pool of the run. *)
Lemma summary_split :
  ∃ front pool,
    run extract zotero_records match_threshold titles website_records front pool ∧
    summary = front ++ (catalog_only zotero_records <$> pool) ∧
    length front = length website_records ∧
    pool = pool_remainder titles (matched_titles summary) ∧
    ∀ i, (i <= length website_records)%nat →
      pool_before zotero_records summary i
      = pool_remainder titles (matched_titles (take i front)).
Proof.
  apply compare_records_run in returns as (front & pool & Hrun & ->).
  exists front, pool. pose proof (run_length _ _ _ _ _ _ _ Hrun) as Hlen.
  split_and!; try done.
  - rewrite matched_titles_app, matched_titles_catalog_only, app_nil_r.
    by eapply run_pool.
  - intros i Hi. unfold pool_before. rewrite take_app_le by lia. done.
Qed.

Lemma summary_step i w :
  website_records !! i = Some w →
  ∃ m, summary !! i = Some m ∧
    step extract zotero_records match_threshold
      (pool_before zotero_records summary i) w m
      (pool_before zotero_records summary (S i)) ∧
    pool_before zotero_records summary i `sublist_of` titles.
Proof.
  intros Hw. destruct summary_split as (front & pool & Hrun & Hsum & Hlen & _ & Hpool).
  pose proof (lookup_lt_Some _ _ _ Hw) as Hi.
  destruct (run_lookup _ _ _ _ _ _ _ i w (reflexivity _) Hrun Hw)
    as (m & Hm & Hstep).
  exists m. split_and!.
  - rewrite Hsum, lookup_app_l; [done | lia].
  - rewrite !Hpool by lia. done.
  - apply pool_remainder_sublist.
Qed.

Lemma summary_matched_NoDup : NoDup titles → NoDup (matched_titles summary).
Proof.
  intros Hnd. destruct summary_split as (front & pool & Hrun & -> & _).
  rewrite matched_titles_app, matched_titles_catalog_only, app_nil_r.
  by eapply run_matched_NoDup.
Qed.

End ReconcilerProperties.

(** C3. Conservation: the [success] and [not_found_on_zotero] outcomes of
    the returned list are as many as the website records, and the [success]
    and [not_found_on_website] outcomes are as many as the Zotero records. *)
Theorem conservation
    (extract : string -> list string -> list (string * Z))
    (website_records : list WebRecord) (zotero_records : list ZoteroRecord)
    (match_threshold : Z) (summary : list Match) :
  compare_records extract website_records zotero_records match_threshold
    = Ok summary →
  (length (filter (fun m => type m = success) summary)
   + length (filter (fun m => type m = not_found_on_zotero) summary)
   = length website_records)%nat ∧
  (length (filter (fun m => type m = success) summary)
   + length (filter (fun m => type m = not_found_on_website) summary)
   = length zotero_records)%nat.
Proof.
  intros Hret.
  destruct (summary_split _ _ _ _ _ Hret) as (front & pool & Hrun & -> & _).
  destruct (run_counts _ _ _ _ _ _ _ Hrun) as (Hweb & Hzot & Hnone).
  rewrite !filter_app, !filter_catalog_only, Hnone. simpl.
  rewrite !app_nil_r, !length_fmap in *. by split.
Qed.

Lemma remove_first_Permutation x l : x ∈ l → l ≡ₚ x :: remove_first x l.
Proof.
  induction l as [|y l IH]; [by intros ?%elem_of_nil|].
  simpl. case_decide as Hy; [by subst|].
  intros [->|Hin]%elem_of_cons; [done|].
  rewrite (IH Hin) at 1. apply Permutation_swap.
Qed.

Lemma remove_first_keeps x t l : t ≠ x → t ∈ l → t ∈ remove_first x l.
Proof.
  intros Hne. induction l as [|y l IH]; [done|].
  simpl. case_decide as Hy.
  - subst y. by intros [->|?]%elem_of_cons.
  - rewrite !elem_of_cons. intros [->|?]; auto.
Qed.

Lemma pool_remainder_keeps t pool matched :
  t ∈ pool → t ∉ matched → t ∈ pool_remainder pool matched.
Proof.
  unfold pool_remainder. revert pool.
  induction matched as [|x matched IH]; intros pool Hin Hnot; [done|].
  apply not_elem_of_cons in Hnot as [Hne Hnot]. simpl.
  apply IH; [by apply remove_first_keeps | done].
Qed.

(** The pool at the start is, up to order, the titles claimed during the
    loop together with the pool at the end. *)
Lemma run_matched_Permutation extract zotero_records match_threshold
    pool ws front pool' :
  pool `sublist_of` (zot_title <$> zotero_records) →
  run extract zotero_records match_threshold pool ws front pool' →
  pool ≡ₚ matched_titles front ++ pool'.
Proof.
  intros Hsub Hrun.
  induction Hrun as [|pool w ws m pool' front pool'' Hstep _ IH]; [done|].
  destruct (step_pool _ _ _ _ _ _ _ Hsub Hstep) as [_ Hsub'].
  rewrite matched_titles_cons.
  destruct (decide (type m = success)) as [Hs|Hs].
  - destruct (step_success_inv _ _ _ _ _ _ _ Hsub Hstep Hs)
      as (t & r & _ & Hin & _ & _ & Hcl & ->).
    unfold matched_titles at 1. simpl. rewrite Hcl. simpl.
    rewrite (remove_first_Permutation t pool Hin). constructor.
    apply IH. by etrans.
  - destruct Hstep as [|s Hbest Hle]; [done|].
    unfold matched_titles at 1, claimed_title. simpl. by apply IH.
Qed.

(** C4, amended. One-to-one, up to the number of records of a title: for
    every input, the titles claimed by the [success] outcomes of the
    returned list are, with their repetitions, among the titles of the
    Zotero records, so no title is claimed by more [success] outcomes than
    there are Zotero records bearing it. When the titles of the Zotero
    records are pairwise distinct, no title is claimed by two [success]
    outcomes and no Zotero record is attached to two of them. *)
Theorem one_to_one_up_to_multiplicity
    (extract : string -> list string -> list (string * Z))
    (website_records : list WebRecord) (zotero_records : list ZoteroRecord)
    (match_threshold : Z) (summary : list Match) :
  compare_records extract website_records zotero_records match_threshold
    = Ok summary →
  matched_titles summary ⊆+ (zot_title <$> zotero_records) ∧
  (∀ t,
     (length (filter (fun t' => t' = t) (matched_titles summary))
      <= length (filter (fun t' => t' = t) (zot_title <$> zotero_records)))%nat) ∧
  (NoDup (zot_title <$> zotero_records) →
   NoDup (matched_titles summary) ∧
   ∀ i j mi mj r,
     summary !! i = Some mi → summary !! j = Some mj →
     type mi = success → type mj = success →
     zotero_record mi = Some r → zotero_record mj = Some r →
     i = j).
Proof.
  intros Hret.
  assert (Hperm : ∃ pool, zot_title <$> zotero_records
                          ≡ₚ matched_titles summary ++ pool).
  { destruct (summary_split _ _ _ _ _ Hret) as (front & pool & Hrun & -> & _).
    exists pool.
    rewrite matched_titles_app, matched_titles_catalog_only, app_nil_r.
    by eapply run_matched_Permutation. }
  destruct Hperm as [pool Hperm]. split_and!.
  - rewrite Hperm. by apply submseteq_inserts_r.
  - intros t. rewrite Hperm, filter_app, length_app. lia.
  - intros Hnd.
    pose proof (summary_matched_NoDup _ _ _ _ _ Hret Hnd) as Hmatched.
    split; [done|].
    intros i j mi mj r Hi Hj Hsi Hsj Hri Hrj.
    assert (Hclaim : ∀ k m, summary !! k = Some m → type m = success →
              zotero_record m = Some r →
              matched_titles summary !! length (matched_titles (take k summary))
              = Some (zot_title r)).
    { intros k m Hk Hs Hr.
      replace (matched_titles summary)
        with (matched_titles (take k summary ++ m :: drop (S k) summary))
        by (by rewrite take_drop_middle).
      rewrite matched_titles_app, matched_titles_cons.
      rewrite lookup_app_r, Nat.sub_diag by done.
      by rewrite (matched_titles_success m r). }
    pose proof (NoDup_lookup _ _ _ _ Hmatched
                  (Hclaim i mi Hi Hsi Hri) (Hclaim j mj Hj Hsj Hrj)) as Heq.
    assert (Hmono : ∀ a b ma, (a < b)%nat → summary !! a = Some ma →
              type ma = success → zotero_record ma = Some r →
              (length (matched_titles (take a summary))
               < length (matched_titles (take b summary)))%nat).
    { intros a b ma Hab Ha Hsa Hra.
      rewrite <- (take_drop (S a) (take b summary)).
      rewrite take_take, Nat.min_l by lia.
      rewrite (take_S_r _ _ _ Ha), !matched_titles_app, !length_app.
      rewrite (matched_titles_success ma r) by done. simpl. lia. }
    destruct (Nat.lt_trichotomy i j) as [Hlt|[Heq'|Hgt]]; [|done|].
    + pose proof (Hmono i j mi Hlt Hi Hsi Hri). lia.
    + pose proof (Hmono j i mj Hgt Hj Hsj Hrj). lia.
Qed.

(** C6. The comparison with the threshold is strict. The outcome of the
    website record of index [i] carries its best score against the pool
    standing at that point; it is [success] exactly when that score is
    greater than the threshold and [not_found_on_zotero] exactly when it is
    not. A score equal to the threshold gives [not_found_on_zotero] with no
    Zotero record and leaves the pool as it was; a candidate of that
    record, a title of the pool paired with the score, which no later
    outcome claims, ends in a [not_found_on_website] outcome of the
    returned list, after the outcomes of the website records. *)
Theorem threshold_strict
    (extract : string -> list string -> list (string * Z))
    (website_records : list WebRecord) (zotero_records : list ZoteroRecord)
    (match_threshold : Z) (summary : list Match)
    (i : nat) (w : WebRecord) :
  compare_records extract website_records zotero_records match_threshold
    = Ok summary →
  website_records !! i = Some w →
  ∃ m, summary !! i = Some m ∧
    web_record m = Some w ∧
    best_score (extract (web_title w) (pool_before zotero_records summary i))
      (ratio m) ∧
    (type m = success ↔ ratio m > match_threshold) ∧
    (type m = not_found_on_zotero ↔ ratio m <= match_threshold) ∧
    (ratio m = match_threshold →
       type m = not_found_on_zotero ∧ zotero_record m = None ∧
       pool_before zotero_records summary (S i)
       = pool_before zotero_records summary i ∧
       ∀ t,
         (t, match_threshold)
           ∈ extract (web_title w) (pool_before zotero_records summary i) →
         t ∈ pool_before zotero_records summary i →
         t ∉ matched_titles (drop (S i) summary) →
         ∃ j r,
           (length website_records <= j)%nat ∧
           summary !! j
             = Some (mkMatch not_found_on_website 0 None (Some r)) ∧
           zot_title r = t).
Proof.
  intros Hret Hw.
  destruct (summary_step _ _ _ _ _ Hret i w Hw) as (m & Hm & Hstep & _).
  exists m. apply step_type in Hstep as (Hweb & Hbest & Hcases).
  split_and!; try done.
  - destruct Hcases as [[-> ?]|(-> & ? & _)]; split; (done || lia).
  - destruct Hcases as [[-> ?]|(-> & ? & _)]; split; (done || lia).
  - intros Heq. destruct Hcases as [[_ ?]|(Ht & _ & Hnone & Hsame)]; [lia|].
    split_and!; try done.
    intros t _ Hin Hlater.
    destruct (summary_split _ _ _ _ _ Hret)
      as (front & pool & Hrun & Hsum & Hlen & Hpool & _).
    assert (Hleft : t ∈ pool).
    { rewrite Hpool.
      replace (matched_titles summary)
        with (matched_titles (take (S i) summary)
              ++ matched_titles (drop (S i) summary))
        by (by rewrite <- matched_titles_app, take_drop).
      rewrite pool_remainder_app. apply pool_remainder_keeps; [|done].
      fold (pool_before zotero_records summary (S i)). by rewrite Hsame. }
    destruct (get_record_by_title_elem_of zotero_records t) as [r Hr].
    { apply (elem_of_sublist pool); [done|].
      rewrite Hpool. apply pool_remainder_sublist. }
    apply list_elem_of_lookup_1 in Hleft as [k Hk].
    exists (length front + k)%nat, r. split_and!.
    + lia.
    + rewrite Hsum, lookup_app_r by lia.
      replace (length front + k - length front)%nat with k by lia.
      rewrite list_lookup_fmap, Hk. simpl. unfold catalog_only. by rewrite Hr.
    + by eapply get_record_by_title_title.
Qed.

(** C9. First match by equality. The record attached to a [success] outcome
    is the earliest Zotero record bearing the title selected from the pool,
    and so is the record attached to the [not_found_on_website] outcome of
    each title left in the pool; nothing else tells records with the same
    title apart. *)
Theorem first_match_by_equality
    (extract : string -> list string -> list (string * Z))
    (website_records : list WebRecord) (zotero_records : list ZoteroRecord)
    (match_threshold : Z) (summary : list Match) :
  compare_records extract website_records zotero_records match_threshold
    = Ok summary →
  (∀ i w m,
     website_records !! i = Some w → summary !! i = Some m →
     type m = success →
     ∃ t r,
       (t, ratio m)
         ∈ extract (web_title w) (pool_before zotero_records summary i) ∧
       t ∈ pool_before zotero_records summary i ∧
       zotero_record m = Some r ∧
       earliest_with_title zotero_records t r) ∧
  (∀ j t,
     pool_remainder (zot_title <$> zotero_records) (matched_titles summary) !! j
       = Some t →
     ∃ r,
       summary !! (length website_records + j)%nat
         = Some (mkMatch not_found_on_website 0 None (Some r)) ∧
       earliest_with_title zotero_records t r).
Proof.
  intros Hret. split.
  - intros i w m Hw Hm Htype.
    destruct (summary_step _ _ _ _ _ Hret i w Hw) as (m' & Hm' & Hstep & Hsub).
    assert (m' = m) as -> by congruence.
    destruct (step_success_inv _ _ _ _ _ _ _ Hsub Hstep Htype)
      as (t & r & Hin & Hpool & Hrec & Hget & _).
    exists t, r. split_and!; try done.
    by apply get_record_by_title_earliest.
  - intros j t Hj.
    destruct (summary_split _ _ _ _ _ Hret)
      as (front & pool & Hrun & Hsum & Hlen & Hpool & _).
    rewrite <- Hpool in Hj.
    destruct (get_record_by_title_elem_of zotero_records t) as [r Hr].
    { apply (elem_of_sublist pool); [by eapply list_elem_of_lookup_2|].
      rewrite Hpool. apply pool_remainder_sublist. }
    exists r. split; [|by apply get_record_by_title_earliest].
    rewrite Hsum, <- Hlen, lookup_app_r by lia.
    replace (length front + j - length front)%nat with j by lia.
    rewrite list_lookup_fmap, Hj. simpl. unfold catalog_only. by rewrite Hr.
Qed.

(** C10. Every outcome fills the fields of its variant. The returned list is
    the outcomes of the website records, in order, followed by
    [not_found_on_website] outcomes only. An outcome of the first part
    holds its website record and the best score reached against the pool
    standing at that point, and is either a [success] with a Zotero record
    or a [not_found_on_zotero] without one. An outcome of the second part
    has no website record, score 0 and a Zotero record. *)
Theorem outcome_fields
    (extract : string -> list string -> list (string * Z))
    (website_records : list WebRecord) (zotero_records : list ZoteroRecord)
    (match_threshold : Z) (summary : list Match) :
  compare_records extract website_records zotero_records match_threshold
    = Ok summary →
  ∃ front back,
    summary = front ++ back ∧
    length front = length website_records ∧
    (∀ i w, website_records !! i = Some w →
       ∃ m, front !! i = Some m ∧
         web_record m = Some w ∧
         best_score
           (extract (web_title w) (pool_before zotero_records summary i))
           (ratio m) ∧
         ((type m = success ∧ is_Some (zotero_record m)) ∨
          (type m = not_found_on_zotero ∧ zotero_record m = None))) ∧
    Forall (fun m => type m = not_found_on_website ∧ web_record m = None ∧
                     ratio m = 0 ∧ is_Some (zotero_record m)) back.
Proof.
  intros Hret.
  destruct (summary_split _ _ _ _ _ Hret)
    as (front & pool & Hrun & Hsum & Hlen & Hpool & _).
  exists front, (catalog_only zotero_records <$> pool). split_and!; try done.
  - intros i w Hw.
    destruct (summary_step _ _ _ _ _ Hret i w Hw) as (m & Hm & Hstep & Hsub).
    exists m. pose proof (lookup_lt_Some _ _ _ Hw) as Hi.
    rewrite Hsum, lookup_app_l in Hm by lia. split; [done|].
    destruct (decide (type m = success)) as [Hs|Hs].
    + destruct (step_success_inv _ _ _ _ _ _ _ Hsub Hstep Hs)
        as (t & r & _ & _ & Hrec & _).
      apply step_type in Hstep as (? & ? & _).
      split_and!; try done. left. split; [done | by exists r].
    + apply step_type in Hstep as (? & ? & [[? _]|(? & _ & ? & _)]); [done|].
      split_and!; try done. by right.
  - apply Forall_fmap, Forall_forall. intros t Ht. simpl. split_and!; try done.
    destruct (get_record_by_title_elem_of zotero_records t) as [r Hr].
    { apply (elem_of_sublist pool); [done|].
      rewrite Hpool. apply pool_remainder_sublist. }
    rewrite Hr. by exists r.
Qed.


(** ** Facts about strings *)

Lemma append_cons (x : ascii) (a b : string) :
  String x a +:+ b = String x (a +:+ b).
Proof. reflexivity. Qed.

Lemma append_nil_l (a : string) : "" +:+ a = a.
Proof. reflexivity. Qed.

Lemma append_assoc (a b c : string) : (a +:+ b) +:+ c = a +:+ (b +:+ c).
Proof. induction a as [|x a IH]; [done|]. rewrite !append_cons. by f_equal. Qed.

Lemma append_nil_r (a : string) : a +:+ "" = a.
Proof. induction a as [|x a IH]; [done|]. rewrite append_cons. by f_equal. Qed.

Lemma length_append (a b : string) :
  String.length (a +:+ b) = (String.length a + String.length b)%nat.
Proof.
  induction a as [|x a IH]; [done|]. rewrite append_cons. simpl. by rewrite IH.
Qed.

Lemma substring_append (a b : string) (n : nat) :
  substring 0 (String.length a + n) (a +:+ b) = a +:+ substring 0 n b.
Proof.
  induction a as [|x a IH]; [done|].
  rewrite !append_cons. simpl. by rewrite IH.
Qed.

Lemma drop_last_two_append (a b : string) :
  (2 <= String.length b)%nat →
  drop_last_two (a +:+ b) = a +:+ drop_last_two b.
Proof.
  intros Hb. unfold drop_last_two. rewrite length_append.
  replace (String.length a + String.length b - 2)%nat
    with (String.length a + (String.length b - 2))%nat by lia.
  apply substring_append.
Qed.

Lemma drop_last_two_separator (a : string) : drop_last_two (a +:+ ", ") = a.
Proof.
  rewrite drop_last_two_append by (simpl; lia).
  unfold drop_last_two. simpl. apply append_nil_r.
Qed.

Lemma first_char_substring (s c : string) :
  first_char s = Ok c → c = substring 0 1 s.
Proof. destruct s as [|x s]; simpl; [done|]. intros [= <-]. by destruct s. Qed.

(** ** Facts about the reporter *)

Lemma rows_of_Forall2 (row : Match -> result string) (l : list Match)
    (rows : list string) :
  rows_of row l = Ok rows ↔ Forall2 (fun m line => row m = Ok line) l rows.
Proof.
  revert rows. induction l as [|m l IH]; intros rows; simpl.
  - split; [intros [= <-]; constructor | by inversion 1].
  - split.
    + intros (line & Hline & Hrest)%bind_Ok_inv.
      apply bind_Ok_inv in Hrest as (lines & Hlines & [= <-]).
      constructor; [done | by apply IH].
    + inversion 1 as [|? line ? lines Hline Hlines]; subst.
      rewrite Hline. simpl. apply IH in Hlines. by rewrite Hlines.
Qed.

(** A loop of the report appends the lines of the outcomes of its type. *)
Lemma for_each_write_rows (t : MatchType) (row : Match -> result string)
    (l : list Match) (output_file : string) :
  for_each l (write_rows t row) output_file
  = (rows ← rows_of row (filter (fun m => type m = t) l);
     Ok (output_file +:+ concat_rows rows)).
Proof.
  revert output_file. induction l as [|m l IH]; intros output_file.
  - simpl. by rewrite append_nil_r.
  - cbn [for_each]. rewrite filter_cons.
    destruct (decide (type m = t)) as [Ht|Ht].
    + replace (write_rows t row output_file m)
        with (line ← row m; Ok (write output_file line))
        by (unfold write_rows; by rewrite decide_True).
      cbn [rows_of]. destruct (row m) as [line|e]; simpl; [|done].
      rewrite IH. destruct (rows_of row _) as [lines|e]; simpl; [|done].
      unfold write. by rewrite append_assoc.
    + replace (write_rows t row output_file m) with (Ok output_file)
        by (unfold write_rows; by rewrite decide_False).
      apply IH.
Qed.

Lemma print_report_sections (results_summary : list Match) (text : string) :
  print_report results_summary = Ok text ↔
  ∃ rows1 rows2 rows3,
    rows_of success_row
      (filter (fun m => type m = success) results_summary) = Ok rows1 ∧
    rows_of zotero_missing_row
      (filter (fun m => type m = not_found_on_zotero) results_summary)
      = Ok rows2 ∧
    rows_of website_missing_row
      (filter (fun m => type m = not_found_on_website) results_summary)
      = Ok rows3 ∧
    text = count_lines results_summary +:+
           success_header +:+ concat_rows rows1 +:+
           zotero_missing_header +:+ concat_rows rows2 +:+
           website_missing_header +:+ concat_rows rows3.
Proof.
  unfold print_report, write. rewrite for_each_write_rows.
  destruct (rows_of success_row _) as [rows1|e1]; simpl;
    [|split; [done | by intros (? & ? & ? & ? & _)]].
  rewrite for_each_write_rows.
  destruct (rows_of zotero_missing_row _) as [rows2|e2]; simpl;
    [|split; [done | by intros (? & ? & ? & _ & ? & _)]].
  rewrite for_each_write_rows.
  destruct (rows_of website_missing_row _) as [rows3|e3]; simpl;
    [|split; [done | by intros (? & ? & ? & _ & _ & ? & _)]].
  rewrite !append_assoc, append_nil_l. split.
  - intros [= <-]. by exists rows1, rows2, rows3.
  - intros (? & ? & ? & [= <-] & [= <-] & [= <-] & ->). done.
Qed.

(** The inner loop appends one entry and one separator for each author. *)
Lemma for_each_authors_body (creators : list Creator) (acc authors : string) :
  for_each creators authors_body acc = Ok authors →
  authors = acc +:+
    concat_rows ((fun c => author_entry c +:+ ", ")
                   <$> filter (fun c => creatorType c = "author") creators).
Proof.
  revert acc. induction creators as [|c creators IH]; intros acc.
  - simpl. intros [= <-]. by rewrite append_nil_r.
  - cbn [for_each]. rewrite filter_cons.
    intros (acc' & Hacc & Hrest)%bind_Ok_inv. unfold authors_body in Hacc.
    destruct (decide (creatorType c = "author")) as [Hc|Hc].
    + apply bind_Ok_inv in Hacc as (initial & Hinit & [= <-]).
      apply first_char_substring in Hinit as ->.
      apply IH in Hrest as ->. rewrite fmap_cons.
      change (concat_rows (?x :: ?l)) with (x +:+ concat_rows l).
      unfold author_entry. by rewrite !append_assoc.
    + injection Hacc as <-. by apply IH.
Qed.

Lemma drop_last_two_entries (entries : list string) :
  drop_last_two (concat_rows ((fun e => e +:+ ", ") <$> entries))
  = String.concat ", " entries.
Proof.
  induction entries as [|e entries IH]; [done|].
  destruct entries as [|e' entries].
  - simpl. rewrite append_nil_r. apply drop_last_two_separator.
  - change (concat_rows ((fun e => e +:+ ", ") <$> e :: e' :: entries))
      with ((e +:+ ", ") +:+
            concat_rows ((fun e => e +:+ ", ") <$> e' :: entries)).
    rewrite drop_last_two_append, IH.
    + simpl. by rewrite append_assoc.
    + simpl. rewrite !length_append. simpl. lia.
Qed.

Lemma authors_field_authors_spec (creators : list Creator) (authors : string) :
  authors_field creators = Ok authors → authors = authors_spec creators.
Proof.
  unfold authors_field, authors_spec.
  intros (acc & Hacc%for_each_authors_body & [= <-])%bind_Ok_inv.
  subst acc. simpl. rewrite <- drop_last_two_entries. f_equal. f_equal.
  by rewrite <- list_fmap_compose.
Qed.

Lemma website_missing_row_inv (m : Match) (line : string) :
  website_missing_row m = Ok line →
  ∃ zot,
    zotero_record m = Some zot ∧
    authors_field (zot_authors zot) = Ok (authors_spec (zot_authors zot)) ∧
    line = zot_title zot +:+ TAB +:+ authors_spec (zot_authors zot) +:+ TAB +:+
           zot_url zot +:+ TAB +:+ strftime_Ymd (zot_date zot) +:+ LF.
Proof.
  unfold website_missing_row.
  intros (zot & Hzot & Hrest)%bind_Ok_inv.
  apply bind_Ok_inv in Hrest as (authors & Hauthors & [= <-]).
  destruct (zotero_record m) as [zot'|]; [|done]. injection Hzot as ->.
  pose proof (authors_field_authors_spec _ _ Hauthors) as ->.
  by exists zot.
Qed.

(** ** Properties of the report *)

(** C7. The [not_found_on_website] outcomes follow the order of the pool
    left by the first loop: the titles of the Zotero records in input order,
    with one occurrence taken out for each [success] outcome. They are the
    outcomes of those titles, in that order, and the third table of the
    report has one line for each of them, in that order, which begins with
    the title. *)
Theorem catalog_only_in_pool_order
    (extract : string -> list string -> list (string * Z))
    (website_records : list WebRecord) (zotero_records : list ZoteroRecord)
    (match_threshold : Z) (summary : list Match) :
  compare_records extract website_records zotero_records match_threshold
    = Ok summary →
  let remainder :=
    pool_remainder (zot_title <$> zotero_records) (matched_titles summary) in
  remainder `sublist_of` (zot_title <$> zotero_records) ∧
  filter (fun m => type m = not_found_on_website) summary
    = (catalog_only zotero_records <$> remainder) ∧
  ∀ text, print_report summary = Ok text →
    ∃ rows1 rows2 rows3,
      text = count_lines summary +:+
             success_header +:+ concat_rows rows1 +:+
             zotero_missing_header +:+ concat_rows rows2 +:+
             website_missing_header +:+ concat_rows rows3 ∧
      Forall2
        (fun title line =>
           ∃ r, get_record_by_title zotero_records title = Some r ∧
             line = title +:+ TAB +:+ authors_spec (zot_authors r) +:+ TAB +:+
                    zot_url r +:+ TAB +:+ strftime_Ymd (zot_date r) +:+ LF)
        remainder rows3.
Proof.
  intros Hret remainder.
  destruct (summary_split _ _ _ _ _ Hret)
    as (front & pool & Hrun & Hsum & _ & Hpool & _).
  fold remainder in Hpool. subst pool.
  assert (Hfilter : filter (fun m => type m = not_found_on_website) summary
                    = (catalog_only zotero_records <$> remainder)).
  { destruct (run_counts _ _ _ _ _ _ _ Hrun) as (_ & _ & Hnone).
    by rewrite Hsum, filter_app, Hnone, filter_catalog_only. }
  split_and!; [apply pool_remainder_sublist | done |].
  intros text (rows1 & rows2 & rows3 & _ & _ & Hrows & ->)%print_report_sections.
  exists rows1, rows2, rows3. split; [done|].
  rewrite Hfilter in Hrows. apply rows_of_Forall2, Forall2_fmap_l in Hrows.
  eapply Forall2_impl; [exact Hrows|]. simpl.
  intros title line (r & Hr & _ & ->)%website_missing_row_inv. simpl in Hr.
  exists r. split; [done|].
  by rewrite (get_record_by_title_title _ _ _ Hr).
Qed.

(** C8. In every line of the third table of the report, the authors field
    is the entries of the creators whose type is "author", each the first
    initial, a period and the last name, joined by a comma and a space,
    with nothing after the last entry. *)
Theorem authors_field_of_report (results_summary : list Match) (text : string) :
  print_report results_summary = Ok text →
  ∃ rows1 rows2 rows3,
    text = count_lines results_summary +:+
           success_header +:+ concat_rows rows1 +:+
           zotero_missing_header +:+ concat_rows rows2 +:+
           website_missing_header +:+ concat_rows rows3 ∧
    Forall2
      (fun m line =>
         ∃ zot, zotero_record m = Some zot ∧
           line = zot_title zot +:+ TAB +:+
                  authors_spec (zot_authors zot) +:+ TAB +:+
                  zot_url zot +:+ TAB +:+ strftime_Ymd (zot_date zot) +:+ LF)
      (filter (fun m => type m = not_found_on_website) results_summary)
      rows3.
Proof.
  intros (rows1 & rows2 & rows3 & _ & _ & Hrows & ->)%print_report_sections.
  exists rows1, rows2, rows3. split; [done|].
  apply rows_of_Forall2 in Hrows.
  eapply Forall2_impl; [exact Hrows|]. simpl.
  intros m line (zot & Hzot & _ & ->)%website_missing_row_inv. by exists zot.
Qed.

(** ** The empty pool *)

Section EmptyPool.

Variable extract : string -> list string -> list (string * Z).

(** [process.extract] returns no pair when it is given no choice. *)
Hypothesis extract_nil : ∀ query, extract query [] = [].

Lemma compare_body_empty_pool zotero_records match_threshold summary w :
  compare_body extract zotero_records match_threshold (summary, []) w
  = Raise ValueError.
Proof.
  unfold compare_body. by rewrite extract_nil, dict_keys_empty.
Qed.

End EmptyPool.

(** C2. With no Zotero record and at least one website record,
    [max] is applied to an empty list: [compare_records] raises
    [ValueError] and returns no outcome. *)
Theorem empty_catalog_raises
    (extract : string -> list string -> list (string * Z))
    (w : WebRecord) (ws : list WebRecord) (match_threshold : Z) :
  (∀ query, extract query [] = []) →
  compare_records extract (w :: ws) [] match_threshold = Raise ValueError.
Proof.
  intros extract_nil. unfold compare_records. cbn [for_each fmap list_fmap].
  by rewrite compare_body_empty_pool.
Qed.

(** C1. Once every Zotero record has been claimed, any further website
    record makes [compare_records] raise [ValueError]: if the call on
    [ws] returns a list without [not_found_on_website] outcome, the call
    on [ws] followed by more records raises. *)
Theorem exhausted_pool_raises
    (extract : string -> list string -> list (string * Z))
    (ws : list WebRecord) (zotero_records : list ZoteroRecord)
    (match_threshold : Z) (summary : list Match)
    (w : WebRecord) (ws' : list WebRecord) :
  (∀ query, extract query [] = []) →
  compare_records extract ws zotero_records match_threshold = Ok summary →
  filter (fun m => type m = not_found_on_website) summary = [] →
  compare_records extract (ws ++ w :: ws') zotero_records match_threshold
  = Raise ValueError.
Proof.
  intros extract_nil (front & pool & Hrun & ->)%compare_records_run Hnone.
  rewrite filter_app, filter_catalog_only in Hnone. simpl in Hnone.
  apply app_eq_nil in Hnone as [_ Hpool%fmap_nil_inv]. subst pool.
  unfold compare_records. rewrite for_each_app.
  assert (Hloop : for_each ws
            (compare_body extract zotero_records match_threshold)
            ([], zot_title <$> zotero_records) = Ok (front, []))
    by (apply for_each_run; eauto).
  rewrite Hloop. cbn [mbind result_bind for_each].
  by rewrite compare_body_empty_pool.
Qed.

(** C5. Two website records close to the one title of a catalog of one
    record: the first claims it, and the second meets an empty pool, so
    [compare_records] raises [ValueError] and the second record gets no
    outcome. *)
Theorem greedy_single_title_raises
    (extract : string -> list string -> list (string * Z))
    (w1 w2 : WebRecord) (c : ZoteroRecord) (match_threshold s1 s2 : Z) :
  (∀ query, extract query [] = []) →
  extract (web_title w1) [zot_title c] = [(zot_title c, s1)] →
  extract (web_title w2) [zot_title c] = [(zot_title c, s2)] →
  s1 > match_threshold → s2 > match_threshold →
  compare_records extract [w1; w2] [c] match_threshold = Raise ValueError.
Proof.
  intros extract_nil H1 _ Hs1 _.
  assert (Hfirst : for_each [w1] (compare_body extract [c] match_threshold)
            ([], [zot_title c])
          = Ok ([mkMatch success s1 (Some w1) (Some c)], [])).
  { apply for_each_run. eexists. split; [done|].
    econstructor; [|constructor].
    replace (Some c) with (get_record_by_title [c] (zot_title c))
      by (simpl; by rewrite decide_True).
    assert (Hlook : invert_ratios (extract (web_title w1) [zot_title c]) !! s1
                    = Some (zot_title c))
      by (rewrite H1; apply lookup_insert_eq).
    econstructor; [|done|exact Hlook|simpl; by rewrite decide_True].
    rewrite H1. split; [by left|]. simpl.
    intros s' ?%list_elem_of_singleton. lia. }
  unfold compare_records. change [w1; w2] with ([w1] ++ [w2]).
  rewrite for_each_app. cbn [fmap list_fmap]. rewrite Hfirst.
  cbn [mbind result_bind for_each]. by rewrite compare_body_empty_pool.
Qed.


(** ** When the reconciler returns *)

Section Returns.

Variable extract : string -> list string -> list (string * Z).
Variable zotero_records : list ZoteroRecord.
Variable match_threshold : Z.

(** What the reconciler relies on from [process.extract]: the pairs it
    returns bear titles of the choices, and there is one at least when
    there is a choice. *)
Hypothesis extract_elem_of :
  ∀ query choices t s, (t, s) ∈ extract query choices → t ∈ choices.
Hypothesis extract_nonempty :
  ∀ query choices, choices ≠ [] → extract query choices ≠ [].

Lemma step_exists (pool : list string) (w : WebRecord) :
  pool ≠ [] →
  ∃ m pool', step extract zotero_records match_threshold pool w m pool' ∧
    (length pool <= S (length pool'))%nat.
Proof.
  intros Hpool.
  pose proof (extract_nonempty (web_title w) pool Hpool) as Hratios.
  destruct (py_max_nonempty (dict_keys (invert_ratios
              (extract (web_title w) pool)))) as [s Hmax].
  { destruct (extract (web_title w) pool) as [|[t0 s0] ratios] eqn:He; [done|].
    intros Hnil.
    assert (Hin : s0 ∈ dict_keys (invert_ratios ((t0, s0) :: ratios)))
      by (apply dict_keys_invert_ratios; left).
    rewrite Hnil in Hin. by apply elem_of_nil in Hin. }
  pose proof (py_max_spec _ _ Hmax) as [Hkey _].
  apply py_max_best_score in Hmax.
  destruct (decide (s > match_threshold)) as [Hgt|Hle].
  - apply dict_keys_is_Some in Hkey as [t Ht].
    pose proof (invert_ratios_lookup _ _ _ Ht) as Hin.
    apply extract_elem_of, list_remove_elem_of in Hin as [pool' Hrm].
    eexists _, pool'. split; [by econstructor|].
    apply list_remove_length in Hrm. lia.
  - eexists _, pool. split; [by constructor | lia].
Qed.

Lemma run_exists (ws : list WebRecord) (pool : list string) :
  (length ws <= length pool)%nat →
  ∃ front pool', run extract zotero_records match_threshold pool ws front pool'.
Proof.
  revert pool. induction ws as [|w ws IH]; intros pool Hlen.
  - exists [], pool. constructor.
  - simpl in Hlen. destruct (step_exists pool w) as (m & pool' & Hstep & Hlen').
    { intros ->. simpl in Hlen. lia. }
    destruct (IH pool') as (front & pool'' & Hrun); [lia|].
    exists (m :: front), pool''. by econstructor.
Qed.

(** With at least as many Zotero records as website records the pool is
    never empty when a record is processed, and [compare_records]
    returns. *)
Lemma compare_records_returns (ws : list WebRecord) :
  (length ws <= length zotero_records)%nat →
  ∃ summary,
    compare_records extract ws zotero_records match_threshold = Ok summary.
Proof.
  intros Hlen.
  destruct (run_exists ws (zot_title <$> zotero_records)) as (front & pool & Hrun);
    [by rewrite length_fmap|].
  eexists. apply compare_records_run. eauto.
Qed.

End Returns.

(** The second of two records never gets the record the first has claimed,
    when the titles of the Zotero records are pairwise distinct. *)
Lemma greedy_removal_second_record
    (extract : string -> list string -> list (string * Z))
    (w1 w2 : WebRecord) (ws : list WebRecord)
    (zotero_records : list ZoteroRecord) (match_threshold : Z)
    (m1 m2 : Match) (rest : list Match) (r : ZoteroRecord) :
  compare_records extract (w1 :: w2 :: ws) zotero_records match_threshold
    = Ok (m1 :: m2 :: rest) →
  NoDup (zot_title <$> zotero_records) →
  type m1 = success → zotero_record m1 = Some r →
  (zot_title r ∉ pool_before zotero_records (m1 :: m2 :: rest) 1) ∧
  zotero_record m2 ≠ Some r.
Proof.
  intros Hret Hnd Hs1 Hr1.
  pose proof (summary_matched_NoDup _ _ _ _ _ Hret Hnd) as Hmatched.
  assert (Hcl1 : claimed_title m1 = Some (zot_title r))
    by (unfold claimed_title; rewrite decide_True, Hr1; done).
  split.
  - unfold pool_before, matched_titles. simpl. rewrite Hcl1. simpl.
    apply remove_first_NoDup, Hnd.
  - intros Hr2.
    destruct (summary_step _ _ _ _ _ Hret 1%nat w2 eq_refl)
      as (m & [= <-] & Hstep & _).
    apply step_type in Hstep as (_ & _ & [[Hs2 _]|(_ & _ & Hnone & _)]);
      [|congruence].
    unfold matched_titles in Hmatched. simpl in Hmatched.
    rewrite Hcl1 in Hmatched. unfold claimed_title at 1 in Hmatched.
    rewrite decide_True, Hr2 in Hmatched by done. simpl in Hmatched.
    apply NoDup_cons in Hmatched as [Hnot _]. apply Hnot. by left.
Qed.

(** ** The reference matcher meets the contract *)

Lemma insert_by_score_elem_of (p q : string * Z) (l : list (string * Z)) :
  q ∈ insert_by_score p l ↔ q = p ∨ q ∈ l.
Proof.
  induction l as [|x l IH]; simpl.
  - rewrite list_elem_of_singleton, elem_of_nil. tauto.
  - case_decide; rewrite !elem_of_cons; [done|]. rewrite IH. tauto.
Qed.

Lemma extract_with_nil scorer query : extract_with scorer query [] = [].
Proof. reflexivity. Qed.

Lemma extract_with_elem_of scorer query choices t s :
  (t, s) ∈ extract_with scorer query choices → t ∈ choices.
Proof.
  unfold extract_with. intros Hin%(subseteq_take 5).
  induction choices as [|c choices IH]; simpl in Hin;
    [by apply elem_of_nil in Hin|].
  apply insert_by_score_elem_of in Hin as [[= -> _]|Hin]; [by left|].
  right. by apply IH.
Qed.

Lemma extract_with_nonempty scorer query choices :
  choices ≠ [] → extract_with scorer query choices ≠ [].
Proof.
  unfold extract_with. destruct choices as [|c choices]; [done|]. intros _.
  simpl. destruct (foldr insert_by_score [] _) as [|q l]; simpl; [done|].
  by case_decide.
Qed.

(** ** The model on the samples *)

Ltac run_model := vm_compute; reflexivity.

Example exact_match_scenario :
  compare_records reference_extract [web "Deep Learning for X"]
    [zot "Deep Learning for X" "http://x" [jane_doe]] default_match_threshold
  = Ok [mkMatch success 100 (Some (web "Deep Learning for X"))
          (Some (zot "Deep Learning for X" "http://x" [jane_doe]))].
Proof. run_model. Qed.

Example empty_website_scenario :
  compare_records reference_extract [] sample_catalog default_match_threshold
  = Ok (catalog_only sample_catalog <$> (zot_title <$> sample_catalog)).
Proof. run_model. Qed.

Example author_filtering_scenario :
  authors_field [a_smith; b_jones] = Ok "B.Jones".
Proof. run_model. Qed.

Example empty_first_name_raises :
  authors_field [mkCreator "" "Consortium" "author"] = Raise IndexError.
Proof. run_model. Qed.

Example tie_keeps_last_title :
  invert_ratios [("first", 100); ("second", 100); ("third", 40)] !! 100
  = Some "second".
Proof. run_model. Qed.

Lemma conservation_witness :
  compare_records reference_extract sample_website sample_catalog 90
    = Ok sample_summary ∧
  (length (filter (fun m => type m = success) sample_summary)
   + length (filter (fun m => type m = not_found_on_zotero) sample_summary)
   = length sample_website)%nat ∧
  (length (filter (fun m => type m = success) sample_summary)
   + length (filter (fun m => type m = not_found_on_website) sample_summary)
   = length sample_catalog)%nat.
Proof.
  split; [run_model|].
  apply (conservation reference_extract sample_website sample_catalog 90
           sample_summary).
  run_model.
Defined.

Lemma sample_catalog_NoDup : NoDup (zot_title <$> sample_catalog).
Proof. apply (bool_decide_unpack _). run_model. Qed.

Lemma one_to_one_up_to_multiplicity_witness :
  compare_records reference_extract repeated_website sample_catalog 90
    = Ok repeated_summary ∧
  matched_titles repeated_summary = ["Slip systems"; "Deep Learning for X"] ∧
  type <$> repeated_summary
    = [success; not_found_on_zotero; success; not_found_on_website] ∧
  matched_titles repeated_summary ⊆+ (zot_title <$> sample_catalog) ∧
  (∀ t,
     (length (filter (fun t' => t' = t) (matched_titles repeated_summary))
      <= length (filter (fun t' => t' = t) (zot_title <$> sample_catalog)))%nat) ∧
  (NoDup (zot_title <$> sample_catalog) →
   NoDup (matched_titles repeated_summary) ∧
   ∀ i j mi mj r,
     repeated_summary !! i = Some mi → repeated_summary !! j = Some mj →
     type mi = success → type mj = success →
     zotero_record mi = Some r → zotero_record mj = Some r →
     i = j).
Proof.
  split; [run_model|]. split; [reflexivity|]. split; [reflexivity|].
  apply (one_to_one_up_to_multiplicity reference_extract repeated_website
           sample_catalog 90 repeated_summary).
  run_model.
Defined.

(** The second request for "Slip systems" finds the title gone and is not
    matched. *)
Example repeated_title_scenario :
  repeated_summary !! 1%nat
  = Some (mkMatch not_found_on_zotero 0 (Some (web "Slip systems")) None).
Proof. reflexivity. Qed.

(** With two records of the title, both requests are matched, and no
    more. *)
Example duplicate_title_matched_twice :
  ∃ summary,
    compare_records reference_extract
      [web "Slip systems"; web "Slip systems"; web "Slip systems"]
      duplicate_catalog 90 = Ok summary ∧
    matched_titles summary = ["Slip systems"; "Slip systems"].
Proof. eexists. split; [run_model | reflexivity]. Qed.

(** Two website records with the title that two Zotero records share: both
    are matched, to the same title and the same record. *)
Lemma one_to_one_fails_on_duplicate_titles :
  ∃ summary,
    compare_records reference_extract
      [web "Slip systems"; web "Slip systems"] duplicate_catalog 90
      = Ok summary ∧
    ¬ NoDup (matched_titles summary).
Proof.
  eexists. split; [run_model|].
  vm_compute. intros [Hnot _]%NoDup_cons. apply Hnot. by left.
Qed.

Lemma threshold_strict_witness :
  compare_records reference_extract sample_website sample_catalog 90
    = Ok sample_summary ∧
  sample_website !! 2%nat = Some (web "Texture") ∧
  sample_summary !! 2%nat
    = Some (mkMatch not_found_on_zotero 90 (Some (web "Texture")) None) ∧
  reference_extract "Texture" (pool_before sample_catalog sample_summary 2)
    = [("Texture evolution", 90); ("Slip systems", 0)] ∧
  ∃ j r,
    (length sample_website <= j)%nat ∧
    sample_summary !! j
      = Some (mkMatch not_found_on_website 0 None (Some r)) ∧
    zot_title r = "Texture evolution".
Proof.
  assert (Hret : compare_records reference_extract sample_website
                   sample_catalog 90 = Ok sample_summary) by run_model.
  split; [exact Hret|]. split; [reflexivity|]. split; [reflexivity|].
  split; [run_model|].
  destruct (threshold_strict reference_extract sample_website sample_catalog
              90 sample_summary 2 (web "Texture") Hret eq_refl)
    as (m & Hm & _ & _ & _ & _ & Hboundary).
  injection Hm as <-.
  destruct (Hboundary eq_refl) as (_ & _ & _ & Hcandidate).
  apply (Hcandidate "Texture evolution").
  - replace (reference_extract _ _)
      with [("Texture evolution", 90); ("Slip systems", 0)] by run_model.
    left.
  - replace (pool_before sample_catalog sample_summary 2)
      with ["Texture evolution"; "Slip systems"] by run_model.
    left.
  - replace (matched_titles (drop 3 sample_summary)) with (@nil string)
      by run_model.
    apply not_elem_of_nil.
Defined.

(** On the samples the boundary is met: "Texture" scores 90 against
    "Texture evolution" and is not matched. *)
Example threshold_boundary_scenario :
  sample_summary !! 2%nat
  = Some (mkMatch not_found_on_zotero 90 (Some (web "Texture")) None).
Proof. reflexivity. Qed.

Lemma first_match_by_equality_witness :
  compare_records reference_extract [web "Slip systems"; web "Texture"]
    duplicate_catalog 90 = Ok duplicate_summary ∧
  (∀ i w m,
     [web "Slip systems"; web "Texture"] !! i = Some w →
     duplicate_summary !! i = Some m →
     type m = success →
     ∃ t r,
       (t, ratio m)
         ∈ reference_extract (web_title w)
             (pool_before duplicate_catalog duplicate_summary i) ∧
       t ∈ pool_before duplicate_catalog duplicate_summary i ∧
       zotero_record m = Some r ∧
       earliest_with_title duplicate_catalog t r) ∧
  (∀ j t,
     pool_remainder (zot_title <$> duplicate_catalog)
       (matched_titles duplicate_summary) !! j = Some t →
     ∃ r,
       duplicate_summary
         !! (length [web "Slip systems"; web "Texture"] + j)%nat
         = Some (mkMatch not_found_on_website 0 None (Some r)) ∧
       earliest_with_title duplicate_catalog t r).
Proof.
  split; [run_model|].
  apply (first_match_by_equality reference_extract
           [web "Slip systems"; web "Texture"] duplicate_catalog 90
           duplicate_summary).
  run_model.
Defined.

(** With the duplicate, both the [success] outcome and the
    [not_found_on_website] outcome of "Slip systems" hold the first record
    of that title; the second one appears nowhere. *)
Example duplicate_title_scenario :
  zotero_record <$> duplicate_summary
  = [Some (zot "Slip systems" "http://first" [jane_doe]);
     None;
     Some (zot "Grain growth" "http://g" []);
     Some (zot "Slip systems" "http://first" [jane_doe])].
Proof. reflexivity. Qed.

Lemma outcome_fields_witness :
  compare_records reference_extract sample_website sample_catalog 90
    = Ok sample_summary ∧
  ∃ front back,
    sample_summary = front ++ back ∧
    length front = length sample_website ∧
    (∀ i w, sample_website !! i = Some w →
       ∃ m, front !! i = Some m ∧
         web_record m = Some w ∧
         best_score
           (reference_extract (web_title w)
              (pool_before sample_catalog sample_summary i))
           (ratio m) ∧
         ((type m = success ∧ is_Some (zotero_record m)) ∨
          (type m = not_found_on_zotero ∧ zotero_record m = None))) ∧
    Forall (fun m => type m = not_found_on_website ∧ web_record m = None ∧
                     ratio m = 0 ∧ is_Some (zotero_record m)) back.
Proof.
  split; [run_model|].
  apply (outcome_fields reference_extract sample_website sample_catalog 90
           sample_summary).
  run_model.
Defined.

Lemma catalog_only_in_pool_order_witness :
  compare_records reference_extract sample_website sample_catalog 90
    = Ok sample_summary ∧
  print_report sample_summary = Ok sample_report ∧
  pool_remainder (zot_title <$> sample_catalog) (matched_titles sample_summary)
    = ["Texture evolution"; "Slip systems"] ∧
  ["Texture evolution"; "Slip systems"]
    `sublist_of` (zot_title <$> sample_catalog) ∧
  filter (fun m => type m = not_found_on_website) sample_summary
    = (catalog_only sample_catalog <$> ["Texture evolution"; "Slip systems"]) ∧
  ∃ rows1 rows2 rows3,
    sample_report
    = count_lines sample_summary +:+
      success_header +:+ concat_rows rows1 +:+
      zotero_missing_header +:+ concat_rows rows2 +:+
      website_missing_header +:+ concat_rows rows3 ∧
    Forall2
      (fun title line =>
         ∃ r, get_record_by_title sample_catalog title = Some r ∧
           line = title +:+ TAB +:+ authors_spec (zot_authors r) +:+ TAB +:+
                  zot_url r +:+ TAB +:+ strftime_Ymd (zot_date r) +:+ LF)
      ["Texture evolution"; "Slip systems"] rows3.
Proof.
  assert (Hret : compare_records reference_extract sample_website
                   sample_catalog 90 = Ok sample_summary) by run_model.
  assert (Hreport : print_report sample_summary = Ok sample_report)
    by run_model.
  split; [exact Hret|]. split; [exact Hreport|]. split; [reflexivity|].
  destruct (catalog_only_in_pool_order reference_extract sample_website
              sample_catalog 90 sample_summary Hret)
    as (Hsub & Hfilter & Hrows).
  split; [exact Hsub|]. split; [exact Hfilter|].
  exact (Hrows sample_report Hreport).
Defined.

Example catalog_only_order_scenario :
  pool_remainder (zot_title <$> sample_catalog) (matched_titles sample_summary)
  = ["Texture evolution"; "Slip systems"].
Proof. reflexivity. Qed.

Lemma authors_field_of_report_witness :
  print_report sample_summary = Ok sample_report ∧
  ∃ rows1 rows2 rows3,
    sample_report
    = count_lines sample_summary +:+
      success_header +:+ concat_rows rows1 +:+
      zotero_missing_header +:+ concat_rows rows2 +:+
      website_missing_header +:+ concat_rows rows3 ∧
    Forall2
      (fun m line =>
         ∃ zot, zotero_record m = Some zot ∧
           line = zot_title zot +:+ TAB +:+
                  authors_spec (zot_authors zot) +:+ TAB +:+
                  zot_url zot +:+ TAB +:+ strftime_Ymd (zot_date zot) +:+ LF)
      (filter (fun m => type m = not_found_on_website) sample_summary)
      rows3.
Proof.
  split; [run_model|].
  apply (authors_field_of_report sample_summary sample_report).
  run_model.
Defined.

Example sample_report_catalog_rows :
  rows_of website_missing_row
    (filter (fun m => type m = not_found_on_website) sample_summary)
  = Ok ["Texture evolution" +:+ TAB +:+ "B.Jones" +:+ TAB +:+ "http://t" +:+
          TAB +:+ "2020/01/15" +:+ LF;
        "Slip systems" +:+ TAB +:+ "B.Jones, J.Doe" +:+ TAB +:+ "http://s" +:+
          TAB +:+ "2020/01/15" +:+ LF].
Proof. run_model. Qed.

Lemma empty_catalog_raises_witness :
  (∀ query, reference_extract query [] = []) ∧
  compare_records reference_extract [web "A"] [] 90 = Raise ValueError.
Proof.
  split; [intros query; reflexivity|].
  apply (empty_catalog_raises reference_extract (web "A") [] 90).
  intros query. reflexivity.
Defined.

Lemma exhausted_pool_raises_witness :
  (∀ query, reference_extract query [] = []) ∧
  compare_records reference_extract [web "Deep Learning for X"]
    [zot "Deep Learning for X" "http://x" [jane_doe]] 90
  = Ok [mkMatch success 100 (Some (web "Deep Learning for X"))
          (Some (zot "Deep Learning for X" "http://x" [jane_doe]))] ∧
  compare_records reference_extract
    ([web "Deep Learning for X"] ++ web "Grain growth" :: [])
    [zot "Deep Learning for X" "http://x" [jane_doe]] 90
  = Raise ValueError.
Proof.
  split; [intros query; reflexivity|]. split; [run_model|].
  apply (exhausted_pool_raises reference_extract
           [web "Deep Learning for X"]
           [zot "Deep Learning for X" "http://x" [jane_doe]] 90
           [mkMatch success 100 (Some (web "Deep Learning for X"))
              (Some (zot "Deep Learning for X" "http://x" [jane_doe]))]);
    [intros query; reflexivity | run_model | run_model].
Defined.

Lemma greedy_single_title_raises_witness :
  (∀ query, reference_extract query [] = []) ∧
  reference_extract "Deep Learning for X" ["Deep Learning for X"]
    = [("Deep Learning for X", 100)] ∧
  100 > 90 ∧
  compare_records reference_extract
    [web "Deep Learning for X"; web "Deep Learning for X"]
    [zot "Deep Learning for X" "http://x" [jane_doe]] 90
  = Raise ValueError.
Proof.
  split; [intros query; reflexivity|]. split; [run_model|]. split; [lia|].
  apply (greedy_single_title_raises reference_extract
           (web "Deep Learning for X") (web "Deep Learning for X")
           (zot "Deep Learning for X" "http://x" [jane_doe]) 90 100 100);
    [intros query; reflexivity | run_model | run_model | lia | lia].
Defined.

(** The reference matcher meets the contract under which the reconciler
    returns, so the samples with no more website than Zotero records
    return. *)
Lemma compare_records_returns_samples :
  ∃ summary,
    compare_records reference_extract sample_website sample_catalog 90
    = Ok summary.
Proof.
  apply compare_records_returns; [| |simpl; lia].
  - intros query choices t s. apply extract_with_elem_of.
  - intros query choices. apply extract_with_nonempty.
Qed.

(** ** Further properties of the reconciler *)

Lemma for_each_Raise_inv {A S : Type} (l : list A) (body : S -> A -> result S)
    (s : S) (e : exn) :
  for_each l body s = Raise e → ∃ s' x, x ∈ l ∧ body s' x = Raise e.
Proof.
  revert s. induction l as [|x l IH]; intros s; simpl; [done|].
  destruct (body s x) as [s1|e1] eqn:Hbody; simpl.
  - intros (s' & y & Hy & Hraise)%IH. exists s', y. split; [by right | done].
  - intros [= ->]. exists s, x. split; [by left | done].
Qed.

Lemma list_remove_Raise_inv x l e : list_remove x l = Raise e → e = ValueError.
Proof.
  induction l as [|y l IH]; simpl; [by intros [= <-]|].
  case_decide; [done|]. destruct (list_remove x l); simpl; [done|].
  intros [= <-]. by apply IH.
Qed.

Lemma compare_body_Raise_inv extract zotero_records match_threshold st w e :
  compare_body extract zotero_records match_threshold st w = Raise e →
  e = ValueError.
Proof.
  destruct st as [summary pool]. unfold compare_body.
  destruct (py_max _) as [s|e'] eqn:Hmax; simpl.
  - apply py_max_spec in Hmax as [[t Ht]%dict_keys_is_Some _].
    case_decide; [|done]. unfold dict_get. rewrite Ht. simpl.
    destruct (list_remove t pool) as [pool'|e'] eqn:Hrm; simpl; [done|].
    intros [= <-]. by eapply list_remove_Raise_inv.
  - intros [= <-]. unfold py_max in Hmax.
    destruct (dict_keys _); by simplify_eq.
Qed.

(** X1. With no website record the matcher is never called: whatever the
    Zotero records, each of their titles, in order, gets a
    [not_found_on_website] outcome. *)
Theorem compare_records_empty_website
    (extract : string -> list string -> list (string * Z))
    (zotero_records : list ZoteroRecord) (match_threshold : Z) :
  compare_records extract [] zotero_records match_threshold
  = Ok (catalog_only zotero_records <$> (zot_title <$> zotero_records)).
Proof. unfold compare_records. simpl. by rewrite for_each_remainder. Qed.

(** X2. [compare_records] raises nothing but [ValueError], whatever the
    matcher returns: the key it reads from the dictionary is always there. *)
Theorem compare_records_only_ValueError
    (extract : string -> list string -> list (string * Z))
    (website_records : list WebRecord) (zotero_records : list ZoteroRecord)
    (match_threshold : Z) (e : exn) :
  compare_records extract website_records zotero_records match_threshold
    = Raise e →
  e = ValueError.
Proof.
  unfold compare_records.
  destruct (for_each website_records _ _) as [[summary pool]|e'] eqn:Hloop;
    simpl.
  - by rewrite for_each_remainder.
  - intros [= <-].
    apply for_each_Raise_inv in Hloop as (st & w & _ & Hbody).
    by eapply compare_body_Raise_inv.
Qed.

Section Contract.

Variable extract : string -> list string -> list (string * Z).
Variable zotero_records : list ZoteroRecord.
Variable match_threshold : Z.

Hypothesis extract_elem_of :
  ∀ query choices t s, (t, s) ∈ extract query choices → t ∈ choices.
Hypothesis extract_nonempty :
  ∀ query choices, choices ≠ [] → extract query choices ≠ [].

Lemma contract_extract_nil query : extract query [] = [].
Proof.
  destruct (extract query []) as [|[t s] l] eqn:He; [done|].
  assert (Hin : (t, s) ∈ extract query []) by (rewrite He; left).
  by apply extract_elem_of, elem_of_nil in Hin.
Qed.

Lemma for_each_exhausted ws1 w ws2 summary pool front :
  run extract zotero_records match_threshold pool ws1 front [] →
  for_each (ws1 ++ w :: ws2)
    (compare_body extract zotero_records match_threshold) (summary, pool)
  = Raise ValueError.
Proof.
  intros Hrun. rewrite for_each_app.
  assert (Hloop : for_each ws1
            (compare_body extract zotero_records match_threshold)
            (summary, pool) = Ok (summary ++ front, []))
    by (apply for_each_run; eauto).
  rewrite Hloop. cbn [mbind result_bind for_each].
  by rewrite (compare_body_empty_pool _ contract_extract_nil).
Qed.

(** Either the loop gets through [ws], or it reaches a record with the pool
    empty. *)
Lemma run_or_exhausted ws pool :
  (∃ front pool', run extract zotero_records match_threshold pool ws front pool') ∨
  (∃ ws1 w ws2 front,
     ws = ws1 ++ w :: ws2 ∧
     run extract zotero_records match_threshold pool ws1 front []).
Proof.
  revert pool. induction ws as [|w ws IH]; intros pool.
  - left. exists [], pool. constructor.
  - destruct (decide (pool = [])) as [->|Hpool].
    + right. exists [], w, ws, []. split; [done | constructor].
    + destruct (step_exists extract zotero_records match_threshold
                  extract_elem_of extract_nonempty pool w Hpool)
        as (m & pool' & Hstep & _).
      destruct (IH pool') as [(front & pool'' & Hrun)|
                              (ws1 & w' & ws2 & front & -> & Hrun)].
      * left. exists (m :: front), pool''. by econstructor.
      * right. exists (w :: ws1), w', ws2, (m :: front).
        split; [done | by econstructor].
Qed.

End Contract.

(** X3. When the pairs the matcher returns bear titles of the choices, and
    there is one at least when there is a choice, [compare_records] returns
    whenever the Zotero records are at least as many as the website
    records. *)
Theorem returns_when_catalog_is_longer
    (extract : string -> list string -> list (string * Z))
    (website_records : list WebRecord) (zotero_records : list ZoteroRecord)
    (match_threshold : Z) :
  (∀ query choices t s, (t, s) ∈ extract query choices → t ∈ choices) →
  (∀ query choices, choices ≠ [] → extract query choices ≠ []) →
  (length website_records <= length zotero_records)%nat →
  ∃ summary,
    compare_records extract website_records zotero_records match_threshold
    = Ok summary.
Proof.
  intros Hin Hne Hlen.
  destruct (run_exists extract zotero_records match_threshold Hin Hne
              website_records (zot_title <$> zotero_records))
    as (front & pool & Hrun); [by rewrite length_fmap|].
  eexists. apply compare_records_run. eauto.
Qed.

(** X4. Under the same contract, [compare_records] raises exactly when it
    reaches a website record with every Zotero record already claimed: the
    records before it, alone, give a list with no [not_found_on_website]
    outcome. The exception is [ValueError]. *)
Theorem raises_iff_pool_exhausted
    (extract : string -> list string -> list (string * Z))
    (website_records : list WebRecord) (zotero_records : list ZoteroRecord)
    (match_threshold : Z) :
  (∀ query choices t s, (t, s) ∈ extract query choices → t ∈ choices) →
  (∀ query choices, choices ≠ [] → extract query choices ≠ []) →
  compare_records extract website_records zotero_records match_threshold
    = Raise ValueError ↔
  ∃ ws1 w ws2 summary,
    website_records = ws1 ++ w :: ws2 ∧
    compare_records extract ws1 zotero_records match_threshold = Ok summary ∧
    filter (fun m => type m = not_found_on_website) summary = [].
Proof.
  intros Hin Hne. split.
  - intros Hraise.
    destruct (run_or_exhausted extract zotero_records match_threshold Hin Hne
                website_records (zot_title <$> zotero_records))
      as [(front & pool & Hrun)|(ws1 & w & ws2 & front & -> & Hrun)].
    + assert (Hok : compare_records extract website_records zotero_records
                      match_threshold
                    = Ok (front ++ (catalog_only zotero_records <$> pool)))
        by (apply compare_records_run; eauto).
      congruence.
    + exists ws1, w, ws2, front. split_and!; [done| |].
      * apply compare_records_run. exists front, [].
        split; [done | by rewrite app_nil_r].
      * by destruct (run_counts _ _ _ _ _ _ _ Hrun) as (_ & _ & ?).
  - intros (ws1 & w & ws2 & summary & -> & Hok & Hnone).
    apply compare_records_run in Hok as (front & pool & Hrun & ->).
    rewrite filter_app, filter_catalog_only in Hnone. simpl in Hnone.
    apply app_eq_nil in Hnone as [_ Hpool%fmap_nil_inv]. subst pool.
    unfold compare_records.
    by rewrite (for_each_exhausted extract zotero_records match_threshold Hin
                  ws1 w ws2 [] _ front Hrun).
Qed.

Lemma list_remove_Permutation x l l' :
  list_remove x l = Ok l' → l ≡ₚ x :: l'.
Proof.
  intros (l1 & l2 & -> & -> & _)%list_remove_split.
  by rewrite Permutation_middle.
Qed.

Section Accounting.

Variable extract : string -> list string -> list (string * Z).
Variable zotero_records : list ZoteroRecord.
Variable match_threshold : Z.

Local Abbreviation titles := (zot_title <$> zotero_records).

Lemma attached_titles_cons m summary :
  attached_titles (m :: summary)
  = attached_titles [m] ++ attached_titles summary.
Proof.
  unfold attached_titles. simpl. by destruct (zot_title <$> zotero_record m).
Qed.

Lemma attached_titles_catalog_only pool :
  pool `sublist_of` titles →
  attached_titles (catalog_only zotero_records <$> pool) = pool.
Proof.
  intros Hsub. induction pool as [|t pool IH]; [done|].
  rewrite fmap_cons, attached_titles_cons, IH
    by (etrans; [|exact Hsub]; by apply sublist_cons_r; left).
  destruct (get_record_by_title_elem_of zotero_records t) as [r Hr].
  { apply (elem_of_sublist (t :: pool)); [by left | done]. }
  unfold attached_titles, catalog_only. simpl. rewrite Hr. simpl.
  by rewrite (get_record_by_title_title _ _ _ Hr).
Qed.

(** The pool at the start is, up to order, the titles attached to the
    outcomes of the loop together with the pool at the end. *)
Lemma run_Permutation pool ws front pool' :
  pool `sublist_of` titles →
  run extract zotero_records match_threshold pool ws front pool' →
  pool ≡ₚ attached_titles front ++ pool'.
Proof.
  intros Hsub Hrun.
  induction Hrun as [|pool w ws m pool' front pool'' Hstep _ IH]; [done|].
  destruct (step_pool _ _ _ _ _ _ _ Hsub Hstep) as [_ Hsub'].
  rewrite attached_titles_cons.
  destruct Hstep as [s t pool' Hbest Hgt Hlook Hrm|s Hbest Hle].
  - pose proof (list_remove_Ok_elem_of _ _ _ Hrm) as Hin.
    destruct (get_record_by_title_elem_of zotero_records t) as [r Hr];
      [by eapply elem_of_sublist|].
    unfold attached_titles at 1. simpl. rewrite Hr. simpl.
    rewrite (get_record_by_title_title _ _ _ Hr).
    rewrite (list_remove_Permutation _ _ _ Hrm). constructor.
    apply IH. by etrans.
  - by apply IH.
Qed.

Lemma run_ratio_range pool ws front pool' (lo hi : Z) :
  (∀ query choices t s, (t, s) ∈ extract query choices → lo <= s <= hi) →
  run extract zotero_records match_threshold pool ws front pool' →
  Forall (fun m => lo <= ratio m <= hi) front.
Proof.
  intros Hrange. induction 1 as [|pool w ws m pool' front pool'' Hstep _ IH];
    constructor; [|done].
  apply step_type in Hstep as (_ & [Hin _] & _).
  apply list_elem_of_fmap in Hin as ([t s] & -> & Hin). by eapply Hrange.
Qed.

Lemma run_no_match pool ws front pool' :
  (∀ query choices t s,
     (t, s) ∈ extract query choices → s <= match_threshold) →
  run extract zotero_records match_threshold pool ws front pool' →
  pool' = pool ∧ Forall (fun m => type m = not_found_on_zotero) front.
Proof.
  intros Hle. induction 1 as [|pool w ws m pool' front pool'' Hstep _ IH].
  - by split.
  - destruct Hstep as [s t pool' [Hin _] Hgt _ _|s Hbest Hnot].
    + apply list_elem_of_fmap in Hin as ([t' s'] & -> & Hin).
      apply Hle in Hin. simpl in Hgt. lia.
    + destruct IH as [-> IH]. split; [done | by constructor].
Qed.

End Accounting.

(** X5. No title is lost or reported twice: the titles of the Zotero
    records attached to the returned outcomes are, up to order, the titles
    of the Zotero records given. *)
Theorem titles_accounted_for
    (extract : string -> list string -> list (string * Z))
    (website_records : list WebRecord) (zotero_records : list ZoteroRecord)
    (match_threshold : Z) (summary : list Match) :
  compare_records extract website_records zotero_records match_threshold
    = Ok summary →
  attached_titles summary ≡ₚ zot_title <$> zotero_records.
Proof.
  intros (front & pool & Hrun & ->)%compare_records_run.
  unfold attached_titles. rewrite omap_app.
  fold (attached_titles front).
  fold (attached_titles (catalog_only zotero_records <$> pool)).
  rewrite attached_titles_catalog_only
    by (eapply run_sublist; [reflexivity | exact Hrun]).
  symmetry. by eapply run_Permutation.
Qed.

(** X6. Ties go to the last pair: when the pairs the matcher returns for
    the one website record are [l1 ++ (t, s) :: l2] with [s] above the
    threshold, no score above [s] and no score equal to [s] in [l2], the
    record is matched with [t], whatever titles of [l1] score [s] too. *)
Theorem tie_goes_to_last_pair
    (extract : string -> list string -> list (string * Z))
    (w : WebRecord) (zotero_records : list ZoteroRecord)
    (match_threshold : Z) (l1 l2 : list (string * Z)) (t : string) (s : Z) :
  extract (web_title w) (zot_title <$> zotero_records)
    = l1 ++ (t, s) :: l2 →
  (∀ s', s' ∈ (l1 ++ l2).*2 → s' <= s) →
  s ∉ l2.*2 →
  s > match_threshold →
  t ∈ zot_title <$> zotero_records →
  compare_records extract [w] zotero_records match_threshold
  = Ok (mkMatch success s (Some w) (get_record_by_title zotero_records t)
        :: (catalog_only zotero_records
              <$> remove_first t (zot_title <$> zotero_records))).
Proof.
  intros Hext Hmax Hlast Hgt Hin.
  destruct (list_remove_elem_of _ _ Hin) as [pool' Hrm].
  apply compare_records_run. eexists [_], pool'. split.
  - econstructor; [|constructor]. econstructor; [|done| |exact Hrm].
    + rewrite Hext. split.
      * rewrite fmap_app, fmap_cons, elem_of_app, elem_of_cons. auto.
      * intros s'. rewrite fmap_app, fmap_cons, elem_of_app, elem_of_cons.
        intros [?|[->|?]]; [|simpl; lia|];
          apply Hmax; rewrite fmap_app, elem_of_app; auto.
    + rewrite Hext. by apply invert_ratios_last_wins.
  - simpl. by rewrite (list_remove_remove_first _ _ _ Hrm).
Qed.

(** X7. The scores of the outcomes are scores of the matcher, or 0: when
    every score the matcher returns lies between 0 and 100, so does the
    ratio of every returned outcome. *)
Theorem ratio_in_range
    (extract : string -> list string -> list (string * Z))
    (website_records : list WebRecord) (zotero_records : list ZoteroRecord)
    (match_threshold : Z) (summary : list Match) :
  (∀ query choices t s, (t, s) ∈ extract query choices → 0 <= s <= 100) →
  compare_records extract website_records zotero_records match_threshold
    = Ok summary →
  Forall (fun m => 0 <= ratio m <= 100) summary.
Proof.
  intros Hrange (front & pool & Hrun & ->)%compare_records_run.
  apply Forall_app. split; [by eapply run_ratio_range|].
  apply Forall_fmap, Forall_forall. intros t _. simpl. lia.
Qed.

(** X8. A threshold no score exceeds switches matching off: the returned
    list is one [not_found_on_zotero] outcome for each website record
    followed by the [not_found_on_website] outcome of every title. *)
Theorem nothing_matched_at_high_threshold
    (extract : string -> list string -> list (string * Z))
    (website_records : list WebRecord) (zotero_records : list ZoteroRecord)
    (match_threshold : Z) (summary : list Match) :
  (∀ query choices t s,
     (t, s) ∈ extract query choices → s <= match_threshold) →
  compare_records extract website_records zotero_records match_threshold
    = Ok summary →
  Forall (fun m => type m = not_found_on_zotero)
    (take (length website_records) summary) ∧
  drop (length website_records) summary
  = (catalog_only zotero_records <$> (zot_title <$> zotero_records)).
Proof.
  intros Hle (front & pool & Hrun & ->)%compare_records_run.
  pose proof (run_length _ _ _ _ _ _ _ Hrun) as Hlen.
  destruct (run_no_match _ _ _ _ _ _ _ Hle Hrun) as [-> Hall].
  rewrite <- Hlen, take_app_length, drop_app_length. by split.
Qed.

(** ** Further properties of the title lookup *)

(** X9. The lookup finds nothing exactly when no record bears the title. *)
Theorem get_record_by_title_None_iff (records : list ZoteroRecord)
    (title : string) :
  get_record_by_title records title = None ↔ title ∉ zot_title <$> records.
Proof.
  induction records as [|r records IH]; simpl.
  - split; [intros _; apply not_elem_of_nil | done].
  - case_decide as Hr; rewrite not_elem_of_cons.
    + split; [done | by intros [? _]].
    + rewrite IH. split; [by split | by intros [_ ?]].
Qed.

(** X10. When the titles are pairwise distinct, looking a record up by its
    own title finds that record. *)
Theorem get_record_by_title_own_record (records : list ZoteroRecord)
    (record : ZoteroRecord) :
  NoDup (zot_title <$> records) →
  record ∈ records →
  get_record_by_title records (zot_title record) = Some record.
Proof.
  induction records as [|r records IH]; intros Hnd Hin;
    [by apply elem_of_nil in Hin|].
  rewrite fmap_cons in Hnd. apply NoDup_cons in Hnd as [Hr Hnd].
  simpl. apply elem_of_cons in Hin as [->|Hin]; [by rewrite decide_True|].
  rewrite decide_False; [by apply IH|].
  intros Heq. apply Hr. rewrite Heq. by apply list_elem_of_fmap_2.
Qed.

(** ** Further properties of the reporter *)





Lemma library_authors_body_writable (acc : string) (c : LibraryCreator) :
  writable c →
  library_authors_body acc c
  = Ok (acc +:+ match library_entry c with
                | Some entry => entry +:+ ", "
                | None => ""
                end).
Proof.
  intros (ctype & Ht & Hauthor). unfold library_authors_body, library_entry.
  rewrite Ht. simpl. case_decide as Ha.
  - destruct (Hauthor Ha) as [(first & Hf & Hne) [last Hl]].
    rewrite Hf, Hl. simpl. destruct first as [|x rest]; [done|]. simpl.
    by destruct rest.
  - destruct (library_firstName c), (library_lastName c);
      by rewrite append_nil_r.
Qed.

Lemma library_authors_body_not_writable (acc : string) (c : LibraryCreator) :
  ¬ writable c →
  library_authors_body acc c
  = Raise (if decide (library_creatorType c = Some "author" ∧
                      library_firstName c = Some "")
           then IndexError else KeyError).
Proof.
  intros Hc. unfold library_authors_body.
  destruct c as [[ctype|] first last];
    cbn [library_creatorType library_firstName library_lastName] in *.
  - destruct (decide (ctype = "author")) as [->|Ha].
    + destruct first as [[|x rest]|].
      * by rewrite decide_True.
      * rewrite decide_False by (by intros [_ ?]).
        destruct last as [last|]; [|done].
        destruct Hc. exists "author". split; [done|]. intros _.
        split; [by eexists | by eexists].
      * by rewrite decide_False by (by intros [_ ?]).
    + destruct Hc. exists ctype. by split.
  - by rewrite decide_False by (by intros [? _]).
Qed.

Lemma for_each_library_authors_body (creators : list LibraryCreator)
    (acc : string) :
  Forall writable creators →
  for_each creators library_authors_body acc
  = Ok (acc +:+ concat_rows ((fun e => e +:+ ", ")
                               <$> omap library_entry creators)).
Proof.
  revert acc. induction creators as [|c creators IH]; intros acc Hall.
  - simpl. by rewrite append_nil_r.
  - apply Forall_cons in Hall as [Hc Hall]. cbn [for_each].
    rewrite (library_authors_body_writable acc c Hc). simpl.
    rewrite (IH _ Hall). f_equal. cbn [omap list_omap].
    destruct (library_entry c) as [entry|].
    + rewrite fmap_cons.
      change (concat_rows (?x :: ?l)) with (x +:+ concat_rows l).
      by rewrite !append_assoc.
    + by rewrite append_nil_r.
Qed.

Lemma library_authors_body_of_creator (acc : string) (c : Creator) :
  library_authors_body acc (of_creator c) = authors_body acc c.
Proof.
  unfold library_authors_body, authors_body, of_creator. simpl.
  case_decide; [|done]. by destruct (first_char (firstName c)).
Qed.

(** X11. The authors field on the creators of the library. It is computed,
    and is the entries of the creators of type "author" joined by a comma
    and a space, when every creator has a type and every author a
    non-empty first name and a last name. The first creator that falls
    short stops it: with [IndexError] when it is an author whose first
    name is empty, with [KeyError] when a key is absent, as for an
    institution entered as author. The names of the other creators are
    never read. On creators that have the three keys it is the authors
    field of the reporter. *)
Theorem library_authors_field_failures (creators : list LibraryCreator) :
  (Forall writable creators →
   library_authors_field creators
   = Ok (String.concat ", " (omap library_entry creators))) ∧
  (∀ before c after,
     creators = before ++ c :: after →
     Forall writable before → ¬ writable c →
     library_authors_field creators
     = Raise (if decide (library_creatorType c = Some "author" ∧
                         library_firstName c = Some "")
              then IndexError else KeyError)) ∧
  (∀ typed : list Creator,
     creators = of_creator <$> typed →
     library_authors_field creators = authors_field typed).
Proof.
  unfold library_authors_field. split_and!.
  - intros Hall. rewrite (for_each_library_authors_body _ _ Hall). simpl.
    by rewrite append_nil_l, drop_last_two_entries.
  - intros before c after -> Hall Hc. rewrite for_each_app.
    rewrite (for_each_library_authors_body _ _ Hall). cbn [mbind result_bind for_each].
    by rewrite (library_authors_body_not_writable _ c Hc).
  - intros typed ->. unfold authors_field. f_equal.
    generalize "". induction typed as [|c typed IH]; intros acc; [done|].
    rewrite fmap_cons. cbn [for_each].
    rewrite library_authors_body_of_creator.
    destruct (authors_body acc c); simpl; [apply IH | done].
Qed.










(** X13. The counts the report announces are the numbers of lines of its
    three tables: each table holds the lines written for the outcomes of
    its type, one for one, and the count above is their number. *)
Theorem print_report_counts_lines (results_summary : list Match)
    (text : string) :
  print_report results_summary = Ok text →
  ∃ rows1 rows2 rows3,
    Forall2 (fun m line => success_row m = Ok line)
      (filter (fun m => type m = success) results_summary) rows1 ∧
    Forall2 (fun m line => zotero_missing_row m = Ok line)
      (filter (fun m => type m = not_found_on_zotero) results_summary)
      rows2 ∧
    Forall2 (fun m line => website_missing_row m = Ok line)
      (filter (fun m => type m = not_found_on_website) results_summary)
      rows3 ∧
    text
    = pretty (length rows1) +:+ " records match on website and Zotero." +:+
      LF +:+
      pretty (length rows2) +:+ " records on website not found on Zotero." +:+
      LF +:+
      pretty (length rows3) +:+ " records on Zotero not found on Website" +:+
      LF +:+
      success_header +:+ concat_rows rows1 +:+
      zotero_missing_header +:+ concat_rows rows2 +:+
      website_missing_header +:+ concat_rows rows3.
Proof.
  intros (rows1 & rows2 & rows3 & H1 & H2 & H3 & ->)%print_report_sections.
  exists rows1, rows2, rows3.
  apply rows_of_Forall2 in H1, H2, H3. split_and!; try done.
  apply Forall2_length in H1, H2, H3.
  unfold count_lines. rewrite H1, H2, H3. by rewrite !append_assoc.
Qed.

(** ** Properties of the pipeline *)




(** ** Properties of the Zotero collector *)

Section ZoteroCollectorFacts.

Variable parse : string -> option datetime.

Lemma zotero_body_Ok records record records' :
  zotero_body parse records record = Ok records' ↔
  ∃ fetched, converted parse record fetched ∧ records' = records ++ [fetched].
Proof.
  unfold zotero_body, converted.
  destruct record as [title creators date doi url]. simpl. split.
  - intros (u & Hu & Hrest)%bind_Ok_inv.
    apply bind_Ok_inv in Hrest as (t & Ht & Hrest).
    apply bind_Ok_inv in Hrest as (c & Hc & Hrest).
    apply bind_Ok_inv in Hrest as (d & Hd & [= <-]).
    destruct title, creators, date; simplify_eq/=.
    eexists. split; [|done]. simpl. split_and!; [done|done|by eexists|].
    destruct doi, url; by simplify_eq/=.
  - intros ([t c d u] & (Ht & Hc & (d0 & Hd & Hparse) & Hu) & ->).
    simpl in *. subst title creators date d.
    destruct doi as [doi|]; [subst u; done|]. by subst url.
Qed.

Lemma zotero_body_cases records record :
  (convertible record ∧ ∃ records', zotero_body parse records record = Ok records') ∨
  (¬ convertible record ∧ zotero_body parse records record = Raise KeyError).
Proof.
  unfold zotero_body, convertible.
  destruct record as [[t|] [c|] [d|] [doi|] [u|]]; simpl;
    first [ left; split; [split_and!; eauto | by eexists]
          | right; split; [|done];
            intros (? & ? & ? & ?); repeat match goal with
              | H : is_Some None |- _ => by destruct H
              | H : _ ∨ _ |- _ => destruct H
              end ].
Qed.

Lemma for_each_zotero_body_Ok results records out :
  for_each results (zotero_body parse) records = Ok out ↔
  ∃ fetched, Forall2 (converted parse) results fetched ∧
    out = records ++ fetched.
Proof.
  revert records. induction results as [|r results IH]; intros records;
    cbn [for_each].
  - split.
    + intros [= <-]. exists []. split; [constructor | by rewrite app_nil_r].
    + intros (fetched & ->%Forall2_nil_inv_l & ->). by rewrite app_nil_r.
  - split.
    + intros (records1 & (f & Hf & ->)%zotero_body_Ok & Hrest)%bind_Ok_inv.
      apply IH in Hrest as (fetched & Hall & ->).
      exists (f :: fetched). split; [by constructor | by rewrite <- app_assoc].
    + intros (fetched & Hall & ->).
      apply Forall2_cons_inv_l in Hall as (f & fetched' & Hf & Hall & ->).
      assert (Hbody : zotero_body parse records r = Ok (records ++ [f]))
        by (apply zotero_body_Ok; eauto).
      rewrite Hbody. simpl. apply IH. exists fetched'.
      split; [done | by rewrite <- app_assoc].
Qed.

Lemma for_each_zotero_body_cases results records :
  (Forall convertible results ∧
   ∃ out, for_each results (zotero_body parse) records = Ok out) ∨
  (¬ Forall convertible results ∧
   for_each results (zotero_body parse) records = Raise KeyError).
Proof.
  revert records. induction results as [|r results IH]; intros records;
    cbn [for_each].
  - left. split; [constructor | by eexists].
  - destruct (zotero_body_cases records r) as [[Hr [records' ->]]|[Hr ->]];
      simpl.
    + destruct (IH records') as [[Hall Hok]|[Hall Hraise]].
      * left. split; [by constructor | done].
      * right. split; [|done]. by intros [_ ?]%Forall_cons.
    + right. split; [|done]. by intros [? _]%Forall_cons.
Qed.

End ZoteroCollectorFacts.

(** X16. [get_zotero_records] returns exactly when every item has a title,
    creators, a date, and a DOI or a url; one item short of a key makes the
    whole call raise [KeyError], with no record for the other items. *)
Theorem get_zotero_records_needs_keys (parse : string -> option datetime)
    (results : list ItemData) :
  (Forall convertible results →
   ∃ records, get_zotero_records parse results = Ok records) ∧
  (¬ Forall convertible results →
   get_zotero_records parse results = Raise KeyError).
Proof.
  unfold get_zotero_records.
  destruct (for_each_zotero_body_cases parse results [])
    as [[Hall Hok]|[Hall Hraise]]; split; intros ?; done.
Qed.

(** X17. The records [get_zotero_records] returns are the items, one for
    one and in order, each with the title and the creators of its item and
    the date [dateparser.parse] makes of its date text. The url is
    "https://" followed by the DOI whenever the item has a DOI key, even an
    empty one and even beside a url; the url of the item is used only when
    there is no DOI key. *)
Theorem get_zotero_records_converts (parse : string -> option datetime)
    (results : list ItemData) (records : list FetchedRecord) :
  get_zotero_records parse results = Ok records →
  Forall2 (converted parse) results records.
Proof.
  unfold get_zotero_records.
  intros (fetched & Hall & ->)%for_each_zotero_body_Ok. done.
Qed.

(** ** Every record once *)

Lemma step_record extract zotero_records match_threshold pool w m pool' r :
  step extract zotero_records match_threshold pool w m pool' →
  zotero_record m = Some r → r ∈ zotero_records.
Proof.
  destruct 1 as [s t pool' _ _ _ _|]; simpl; [|done].
  intros (before & after & -> & _)%get_record_by_title_earliest.
  rewrite elem_of_app, elem_of_cons. auto.
Qed.

Lemma run_record extract zotero_records match_threshold pool ws front pool' r :
  run extract zotero_records match_threshold pool ws front pool' →
  Some r ∈ zotero_record <$> front → r ∈ zotero_records.
Proof.
  induction 1 as [|pool w ws m pool' front pool'' Hstep _ IH];
    [by intros ?%elem_of_nil|].
  rewrite fmap_cons, elem_of_cons. intros [Hm|Hin]; [|by apply IH].
  by eapply step_record.
Qed.

Lemma distinct_titles_inj (records : list ZoteroRecord) (r1 r2 : ZoteroRecord) :
  NoDup (zot_title <$> records) →
  r1 ∈ records → r2 ∈ records → zot_title r1 = zot_title r2 → r1 = r2.
Proof.
  induction records as [|r records IH]; [by intros _ ?%elem_of_nil|].
  rewrite fmap_cons, NoDup_cons, !elem_of_cons.
  intros [Hr Hnd] [->|H1] [->|H2] Heq; [done| | |by apply IH].
  - destruct Hr. rewrite Heq. by apply list_elem_of_fmap_2.
  - destruct Hr. rewrite <- Heq. by apply list_elem_of_fmap_2.
Qed.

(** X18. When the titles of the Zotero records are pairwise distinct, the
    Zotero records attached to the returned outcomes are, up to order, the
    Zotero records given: each is matched or reported as not found on the
    website, and none twice. *)
Theorem records_accounted_for
    (extract : string -> list string -> list (string * Z))
    (website_records : list WebRecord) (zotero_records : list ZoteroRecord)
    (match_threshold : Z) (summary : list Match) :
  NoDup (zot_title <$> zotero_records) →
  compare_records extract website_records zotero_records match_threshold
    = Ok summary →
  omap zotero_record summary ≡ₚ zotero_records.
Proof.
  intros Hnd Hret.
  assert (Htitles : zot_title <$> omap zotero_record summary
                    ≡ₚ zot_title <$> zotero_records).
  { apply compare_records_run in Hret as (front & pool & Hrun & ->).
    assert (Hold : zot_title <$> omap zotero_record
                     (front ++ (catalog_only zotero_records <$> pool))
                   = attached_titles
                       (front ++ (catalog_only zotero_records <$> pool))).
    { unfold attached_titles.
      generalize (front ++ (catalog_only zotero_records <$> pool)).
      induction l as [|m l IH]; [done|]. cbn [omap list_omap].
      destruct (zotero_record m); cbn; [by f_equal | done]. }
    rewrite Hold. unfold attached_titles. rewrite omap_app.
    fold (attached_titles front).
    fold (attached_titles (catalog_only zotero_records <$> pool)).
    rewrite attached_titles_catalog_only
      by (eapply run_sublist; [reflexivity | exact Hrun]).
    symmetry. by eapply run_Permutation. }
  assert (Hmem : ∀ r, r ∈ omap zotero_record summary → r ∈ zotero_records).
  { intros r (m & Hm & Hr)%list_elem_of_omap.
    apply compare_records_run in Hret as (front & pool & Hrun & ->).
    apply elem_of_app in Hm as [Hm|Hm].
    - eapply run_record; [exact Hrun|]. rewrite <- Hr.
      by apply list_elem_of_fmap_2.
    - apply list_elem_of_fmap in Hm as (t & -> & _). simpl in Hr.
      apply get_record_by_title_earliest in Hr as (before & after & -> & _).
      rewrite elem_of_app, elem_of_cons. auto. }
  apply NoDup_Permutation.
  - apply (NoDup_fmap_1 zot_title). by rewrite Htitles.
  - by apply (NoDup_fmap_1 zot_title).
  - intros r. split; [apply Hmem|]. intros Hr.
    assert (Ht : zot_title r ∈ zot_title <$> omap zotero_record summary)
      by (rewrite Htitles; by apply list_elem_of_fmap_2).
    apply list_elem_of_fmap in Ht as (r' & Heq & Hr').
    assert (r' = r) as <-; [|done].
    symmetry. eapply distinct_titles_inj; eauto.
Qed.

(** X19. The first two tables of the report: one line for each [success]
    outcome, in the order of the list, with the website title, the Zotero
    title, the word "success" and the score, and one line for each
    [not_found_on_zotero] outcome, in the order of the list, with the
    website title. *)
Theorem first_tables_of_report (results_summary : list Match) (text : string) :
  print_report results_summary = Ok text →
  ∃ rows1 rows2 rows3,
    text = count_lines results_summary +:+
           success_header +:+ concat_rows rows1 +:+
           zotero_missing_header +:+ concat_rows rows2 +:+
           website_missing_header +:+ concat_rows rows3 ∧
    Forall2
      (fun m line =>
         ∃ web zot, web_record m = Some web ∧ zotero_record m = Some zot ∧
           line = web_title web +:+ TAB +:+ zot_title zot +:+ TAB +:+
                  "success" +:+ TAB +:+ pretty (ratio m) +:+ LF)
      (filter (fun m => type m = success) results_summary) rows1 ∧
    Forall2
      (fun m line =>
         ∃ web, web_record m = Some web ∧ line = web_title web +:+ LF)
      (filter (fun m => type m = not_found_on_zotero) results_summary) rows2.
Proof.
  intros (rows1 & rows2 & rows3 & H1 & H2 & _ & ->)%print_report_sections.
  exists rows1, rows2, rows3. split_and!; [done| |].
  - apply rows_of_Forall2 in H1.
    assert (Hall : Forall (fun m => type m = success)
                     (filter (fun m => type m = success) results_summary))
      by (apply Forall_forall; by intros m [? _]%list_elem_of_filter).
    revert Hall. induction H1 as [|m line l lines Hline _ IH];
      intros Hall; [constructor|].
    apply Forall_cons in Hall as [Ht Hall]. constructor; [|by apply IH].
    unfold success_row in Hline.
    destruct (web_record m) as [web0|], (zotero_record m) as [zot0|];
      simpl in Hline; try done.
    injection Hline as <-. exists web0, zot0. by rewrite Ht.
  - apply rows_of_Forall2 in H2.
    eapply Forall2_impl; [exact H2|]. simpl. intros m line Hline.
    unfold zotero_missing_row in Hline.
    destruct (web_record m) as [web0|]; simpl in Hline; [|done].
    injection Hline as <-. by exists web0.
Qed.

(** ** The further properties on the samples *)

Lemma extract_with_score scorer query choices t s :
  (t, s) ∈ extract_with scorer query choices → s = scorer query t.
Proof.
  unfold extract_with. intros Hin%(subseteq_take 5).
  induction choices as [|c choices IH]; simpl in Hin;
    [by apply elem_of_nil in Hin|].
  apply insert_by_score_elem_of in Hin as [[= -> ->]|Hin]; [done | by apply IH].
Qed.

Lemma prefix_score_range query choice : 0 <= prefix_score query choice <= 100.
Proof.
  unfold prefix_score. case_decide; [lia|].
  destruct (String.prefix query choice || String.prefix choice query)%bool; lia.
Qed.

Lemma reference_extract_elem_of query choices t s :
  (t, s) ∈ reference_extract query choices → t ∈ choices.
Proof. apply extract_with_elem_of. Qed.

Lemma reference_extract_nonempty query choices :
  choices ≠ [] → reference_extract query choices ≠ [].
Proof. apply extract_with_nonempty. Qed.

Lemma reference_extract_range query choices t s :
  (t, s) ∈ reference_extract query choices → 0 <= s <= 100.
Proof. intros ->%extract_with_score. apply prefix_score_range. Qed.

Lemma compare_records_only_ValueError_witness :
  compare_records reference_extract [web "A"] [] 90 = Raise ValueError ∧
  ValueError = ValueError.
Proof.
  split; [run_model|].
  apply (compare_records_only_ValueError reference_extract [web "A"] [] 90).
  run_model.
Defined.

Lemma returns_when_catalog_is_longer_witness :
  (length sample_website <= length sample_catalog)%nat ∧
  ∃ summary,
    compare_records reference_extract sample_website sample_catalog 90
    = Ok summary.
Proof.
  split; [simpl; lia|].
  apply (returns_when_catalog_is_longer reference_extract sample_website
           sample_catalog 90 reference_extract_elem_of
           reference_extract_nonempty).
  simpl. lia.
Defined.

Lemma raises_iff_pool_exhausted_witness :
  compare_records reference_extract
    [web "Deep Learning for X"; web "Grain growth"]
    [zot "Deep Learning for X" "http://x" [jane_doe]] 90
    = Raise ValueError ↔
  ∃ ws1 w ws2 summary,
    [web "Deep Learning for X"; web "Grain growth"] = ws1 ++ w :: ws2 ∧
    compare_records reference_extract ws1
      [zot "Deep Learning for X" "http://x" [jane_doe]] 90 = Ok summary ∧
    filter (fun m => type m = not_found_on_website) summary = [].
Proof.
  apply (raises_iff_pool_exhausted reference_extract
           [web "Deep Learning for X"; web "Grain growth"]
           [zot "Deep Learning for X" "http://x" [jane_doe]] 90
           reference_extract_elem_of reference_extract_nonempty).
Defined.

Lemma titles_accounted_for_witness :
  compare_records reference_extract [web "Slip systems"; web "Texture"]
    duplicate_catalog 90 = Ok duplicate_summary ∧
  attached_titles duplicate_summary ≡ₚ zot_title <$> duplicate_catalog.
Proof.
  split; [run_model|].
  apply (titles_accounted_for reference_extract
           [web "Slip systems"; web "Texture"] duplicate_catalog 90
           duplicate_summary).
  run_model.
Defined.

Lemma tie_goes_to_last_pair_witness :
  reference_extract "Texture" (zot_title <$> texture_catalog)
    = [] ++ [("Texture evolution", 90)] ++ ("Texture analysis", 90) :: [] ∧
  compare_records reference_extract [web "Texture"] texture_catalog 80
  = Ok (mkMatch success 90 (Some (web "Texture"))
          (get_record_by_title texture_catalog "Texture analysis")
        :: (catalog_only texture_catalog
              <$> remove_first "Texture analysis"
                    (zot_title <$> texture_catalog))).
Proof.
  split; [run_model|].
  apply (tie_goes_to_last_pair reference_extract (web "Texture")
           texture_catalog 80 [("Texture evolution", 90)] []
           "Texture analysis" 90).
  - run_model.
  - intros s' [->|[]%elem_of_nil]%elem_of_cons. simpl. lia.
  - apply not_elem_of_nil.
  - lia.
  - right. left.
Defined.

Lemma ratio_in_range_witness :
  compare_records reference_extract sample_website sample_catalog 90
    = Ok sample_summary ∧
  Forall (fun m => 0 <= ratio m <= 100) sample_summary.
Proof.
  split; [run_model|].
  apply (ratio_in_range reference_extract sample_website sample_catalog 90
           sample_summary reference_extract_range).
  run_model.
Defined.

Lemma nothing_matched_at_high_threshold_witness :
  ∃ summary,
    compare_records reference_extract sample_website sample_catalog 100
      = Ok summary ∧
    Forall (fun m => type m = not_found_on_zotero)
      (take (length sample_website) summary) ∧
    drop (length sample_website) summary
    = (catalog_only sample_catalog <$> (zot_title <$> sample_catalog)).
Proof.
  eexists. split; [run_model|].
  apply (nothing_matched_at_high_threshold reference_extract sample_website
           sample_catalog 100).
  - intros query choices t s Hin. apply reference_extract_range in Hin. lia.
  - run_model.
Defined.

Lemma get_record_by_title_own_record_witness :
  NoDup (zot_title <$> sample_catalog) ∧
  get_record_by_title sample_catalog "Slip systems"
  = Some (zot "Slip systems" "http://s" [b_jones; jane_doe]).
Proof.
  split; [exact sample_catalog_NoDup|].
  apply (get_record_by_title_own_record sample_catalog
           (zot "Slip systems" "http://s" [b_jones; jane_doe])
           sample_catalog_NoDup).
  do 2 right. left.
Defined.

(** With a duplicated title the second record of that title is not found by
    its own title. *)
Example lookup_of_duplicate_title :
  get_record_by_title duplicate_catalog
    (zot_title (zot "Slip systems" "http://second" [b_jones]))
  = Some (zot "Slip systems" "http://first" [jane_doe]).
Proof. reflexivity. Qed.

Lemma library_authors_field_failures_witness :
  library_authors_field [institution_editor; person_author] = Ok "B.Jones" ∧
  library_authors_field [person_author; institution_author; nameless_author]
    = Raise KeyError ∧
  library_authors_field [person_author; nameless_author; institution_author]
    = Raise IndexError ∧
  library_authors_field (of_creator <$> [a_smith; b_jones; jane_doe])
    = authors_field [a_smith; b_jones; jane_doe].
Proof.
  assert (Hperson : writable person_author).
  { exists "author". split; [done|]. intros _.
    split; [by exists "Bea" | by eexists]. }
  assert (Heditor : writable institution_editor).
  { exists "editor". by split. }
  split_and!.
  - apply (proj1 (library_authors_field_failures
                    [institution_editor; person_author])).
    by repeat apply Forall_cons_2.
  - apply (proj1 (proj2 (library_authors_field_failures
                           [person_author; institution_author;
                            nameless_author]))
             [person_author] institution_author [nameless_author]);
      [done | by apply Forall_cons_2 |].
    intros (ctype & [= <-] & Hauthor).
    by destruct (Hauthor eq_refl) as [(first & ? & _) _].
  - apply (proj1 (proj2 (library_authors_field_failures
                           [person_author; nameless_author;
                            institution_author]))
             [person_author] nameless_author [institution_author]);
      [done | by apply Forall_cons_2 |].
    intros (ctype & [= <-] & Hauthor).
    by destruct (Hauthor eq_refl) as [(first & [= <-] & ?) _].
  - by apply (proj2 (proj2 (library_authors_field_failures
                              (of_creator <$> [a_smith; b_jones; jane_doe])))).
Defined.

(** An editor without a first name does no harm. *)
Example editor_first_name_not_read :
  authors_field [mkCreator "" "Consortium" "editor"; b_jones] = Ok "B.Jones".
Proof. run_model. Qed.

Lemma print_report_counts_lines_witness :
  print_report sample_summary = Ok sample_report ∧
  ∃ rows1 rows2 rows3,
    Forall2 (fun m line => success_row m = Ok line)
      (filter (fun m => type m = success) sample_summary) rows1 ∧
    Forall2 (fun m line => zotero_missing_row m = Ok line)
      (filter (fun m => type m = not_found_on_zotero) sample_summary) rows2 ∧
    Forall2 (fun m line => website_missing_row m = Ok line)
      (filter (fun m => type m = not_found_on_website) sample_summary)
      rows3 ∧
    sample_report
    = pretty (length rows1) +:+ " records match on website and Zotero." +:+
      LF +:+
      pretty (length rows2) +:+ " records on website not found on Zotero." +:+
      LF +:+
      pretty (length rows3) +:+ " records on Zotero not found on Website" +:+
      LF +:+
      success_header +:+ concat_rows rows1 +:+
      zotero_missing_header +:+ concat_rows rows2 +:+
      website_missing_header +:+ concat_rows rows3.
Proof.
  split; [run_model|].
  apply (print_report_counts_lines sample_summary sample_report).
  run_model.
Defined.

(** The sample report announces 1, 2 and 2. *)
Example sample_report_counts :
  count_lines sample_summary
  = "1 records match on website and Zotero." +:+ LF +:+
    "2 records on website not found on Zotero." +:+ LF +:+
    "2 records on Zotero not found on Website" +:+ LF.
Proof. run_model. Qed.

(** A [success] outcome without its website record stops the report. *)
Example print_report_missing_record :
  print_report [mkMatch success 100 None
                  (Some (zot "Slip systems" "http://s" [jane_doe]))]
  = Raise TypeError.
Proof. run_model. Qed.


(** Once the record is matched its authors are not read, and the report is
    written. *)
Example main_matched_authors_not_read :
  ∃ text, main reference_extract [web "Annual report"] consortium_catalog
          = Ok text.
Proof. eexists. run_model. Qed.

Example main_empty_catalog :
  main reference_extract [web "A"] [] = Raise ValueError.
Proof. run_model. Qed.

Lemma get_zotero_records_needs_keys_witness :
  (∃ records, get_zotero_records sample_parse sample_items = Ok records) ∧
  get_zotero_records sample_parse (sample_items ++ [item_no_link])
  = Raise KeyError.
Proof.
  split.
  - apply (proj1 (get_zotero_records_needs_keys sample_parse sample_items)).
    apply Forall_forall. intros item Hitem. unfold sample_items in Hitem.
    rewrite !elem_of_cons, elem_of_nil in Hitem.
    destruct Hitem as [->|[->|[->|[]]]]; unfold convertible; simpl;
      split_and!; try (by eexists);
      first [left; by eexists | right; by eexists].
  - apply (proj2 (get_zotero_records_needs_keys sample_parse
                    (sample_items ++ [item_no_link]))).
    rewrite Forall_forall. intros Hall.
    destruct (Hall item_no_link) as (_ & _ & _ & [[? ?]|[? ?]]); [|done..].
    apply elem_of_app. right. left.
Defined.

Lemma get_zotero_records_converts_witness :
  get_zotero_records sample_parse sample_items = Ok sample_fetched ∧
  Forall2 (converted sample_parse) sample_items sample_fetched.
Proof.
  split; [run_model|].
  apply (get_zotero_records_converts sample_parse sample_items sample_fetched).
  run_model.
Defined.

(** The urls and dates of the sample items: the DOI wins over the url, an
    empty DOI gives "https://", and a date text the parser cannot read
    gives no date. *)
Example sample_fetched_urls :
  (fun r => (fetched_url r, fetched_date r)) <$> sample_fetched
  = [("https://doi.org/10.1/t", Some (mkDatetime 2020 1 15));
     ("https://", None);
     ("http://g", Some (mkDatetime 2020 1 15))].
Proof. reflexivity. Qed.

Lemma records_accounted_for_witness :
  NoDup (zot_title <$> sample_catalog) ∧
  compare_records reference_extract sample_website sample_catalog 90
    = Ok sample_summary ∧
  omap zotero_record sample_summary ≡ₚ sample_catalog.
Proof.
  split; [exact sample_catalog_NoDup|]. split; [run_model|].
  apply (records_accounted_for reference_extract sample_website
           sample_catalog 90 sample_summary sample_catalog_NoDup).
  run_model.
Defined.

(** With the duplicated title the second record of that title is in no
    outcome, and the first is in two. *)
Example duplicate_record_left_out :
  omap zotero_record duplicate_summary
  = [zot "Slip systems" "http://first" [jane_doe];
     zot "Grain growth" "http://g" [];
     zot "Slip systems" "http://first" [jane_doe]].
Proof. reflexivity. Qed.

Lemma first_tables_of_report_witness :
  print_report sample_summary = Ok sample_report ∧
  ∃ rows1 rows2 rows3,
    sample_report
    = count_lines sample_summary +:+
      success_header +:+ concat_rows rows1 +:+
      zotero_missing_header +:+ concat_rows rows2 +:+
      website_missing_header +:+ concat_rows rows3 ∧
    Forall2
      (fun m line =>
         ∃ web zot, web_record m = Some web ∧ zotero_record m = Some zot ∧
           line = web_title web +:+ TAB +:+ zot_title zot +:+ TAB +:+
                  "success" +:+ TAB +:+ pretty (ratio m) +:+ LF)
      (filter (fun m => type m = success) sample_summary) rows1 ∧
    Forall2
      (fun m line =>
         ∃ web, web_record m = Some web ∧ line = web_title web +:+ LF)
      (filter (fun m => type m = not_found_on_zotero) sample_summary) rows2.
Proof.
  split; [run_model|].
  apply (first_tables_of_report sample_summary sample_report).
  run_model.
Defined.
